(** * vlc_bridge.cpp: the JNI bridge between LibVLC and the Java frame hub

    A shallow embedding of [library/src/main/cpp/vlc_bridge.cpp].

    - The two C++ structs are records; pointers, JNI references and LibVLC
      handles are integers with [0] for [nullptr].
    - The free store is a pair of finite maps from addresses to objects.
      Dereferencing an address that is not live has no defined result, so
      every operation runs in a small monad whose result is an [option].
    - Calls that leave the translation unit (LibVLC, JNI, operator
      new/delete) are recorded, in program order, in a list of events;
      what the outside world answers is an argument of the operation.
    - The registry mutex is a member of the [GlobalContext]: locking and
      unlocking it are accesses to that object, defined only while the
      registry is live. They are not recorded as events, and mutual
      exclusion itself is not modelled: every entry point is taken to run
      alone, as it does under [std::lock_guard].
    - [int] and [unsigned] are 32 bits wide; conversions and unsigned
      arithmetic are written out with their wrap-around.
    - A [jstring] is the string it holds and a [jobjectArray] of strings
      is the list of them. Reading them ([GetArrayLength],
      [GetObjectArrayElement], [GetStringUTFChars],
      [ReleaseStringUTFChars]) and logging are left out; giving up the
      local reference to a string ([DeleteLocalRef]) is recorded.
    - The Java method run by [CallVoidMethod] is taken not to call back
      into the bridge. An exception it throws stays pending on the Java
      side: [CallVoidMethod] returns to [display_cb] either way. *)

From Stdlib Require Import ZArith Lia Strings.Byte.
From stdpp Require Import gmap strings list sorting.

Local Open Scope Z_scope.

(** ** Machine integers *)

Module Int32.

Definition modulus : Z := 2 ^ 32.
Definition half_modulus : Z := 2 ^ 31.

(** Conversion to [unsigned]. *)
Definition to_unsigned (z : Z) : Z := z mod modulus.

(** Conversion to [int] (two's complement). *)
Definition to_int (z : Z) : Z := (z + half_modulus) mod modulus - half_modulus.

(** Multiplication of two [unsigned] operands. *)
Definition umul (a b : Z) : Z := (a * b) mod modulus.

Definition is_unsigned (z : Z) : Prop := 0 <= z < modulus.
Definition is_int (z : Z) : Prop := - half_modulus <= z < half_modulus.

End Int32.

(** ** Data model *)

(** [struct PlayerContext]: one per URL. [buffer] is the
    [std::vector<uint8_t>]. *)
Record PlayerContext := mkPlayerContext {
  frameHub : Z;
  onFrameMethod : Z;
  mp : Z;
  buffer : list Byte.byte;
  actualWidth : Z;
  actualHeight : Z
}.

(** The value a [new PlayerContext()] starts from: the default member
    initialisers. *)
Definition PlayerContext_init : PlayerContext :=
  mkPlayerContext 0 0 0 [] 0 0.

(** [struct GlobalContext]: the LibVLC instance and the map from URL to
    [PlayerContext*]. *)
Record GlobalContext := mkGlobalContext {
  vlc : Z;
  players : gmap string Z
}.

Definition set_frameHub (v : Z) (c : PlayerContext) : PlayerContext :=
  mkPlayerContext v (onFrameMethod c) (mp c) (buffer c) (actualWidth c) (actualHeight c).
Definition set_onFrameMethod (v : Z) (c : PlayerContext) : PlayerContext :=
  mkPlayerContext (frameHub c) v (mp c) (buffer c) (actualWidth c) (actualHeight c).
Definition set_mp (v : Z) (c : PlayerContext) : PlayerContext :=
  mkPlayerContext (frameHub c) (onFrameMethod c) v (buffer c) (actualWidth c) (actualHeight c).
Definition set_buffer (v : list Byte.byte) (c : PlayerContext) : PlayerContext :=
  mkPlayerContext (frameHub c) (onFrameMethod c) (mp c) v (actualWidth c) (actualHeight c).
Definition set_actualWidth (v : Z) (c : PlayerContext) : PlayerContext :=
  mkPlayerContext (frameHub c) (onFrameMethod c) (mp c) (buffer c) v (actualHeight c).
Definition set_actualHeight (v : Z) (c : PlayerContext) : PlayerContext :=
  mkPlayerContext (frameHub c) (onFrameMethod c) (mp c) (buffer c) (actualWidth c) v.

Definition set_vlc (v : Z) (g : GlobalContext) : GlobalContext :=
  mkGlobalContext v (players g).
Definition set_players (v : gmap string Z) (g : GlobalContext) : GlobalContext :=
  mkGlobalContext (vlc g) v.

(** [std::vector<uint8_t>::resize(n)]: keeps the first [n] bytes and pads
    with zero bytes. *)
Definition vector_resize (n : nat) (v : list Byte.byte) : list byte :=
  take n v ++ replicate (n - length v)%nat Byte.x00.

(** ** The format callback *)

(** What [format_setup_cb] writes through its out-parameters, and its
    return value. *)
Record FormatReply := mkFormatReply {
  fmt_result : Z;
  fmt_chroma : string;
  fmt_width : Z;
  fmt_height : Z;
  fmt_pitches : Z;
  fmt_lines : Z
}.

(** The body of [format_setup_cb] on the context [*opaque] points to.
    [width] and [height] are the values the engine passes in [*width] and
    [*height]; [can_allocate n] tells whether [buffer.resize(n)] returns
    (rather than throws). *)
Definition format_setup (can_allocate : Z → bool) (ctx : PlayerContext)
    (width height : Z) : PlayerContext * FormatReply :=
  let forced := (0 <? actualWidth ctx) && (0 <? actualHeight ctx) in
  let width' := if forced then Int32.to_unsigned (actualWidth ctx) else width in
  let height' := if forced then Int32.to_unsigned (actualHeight ctx) else height in
  let ctx1 :=
    if forced then ctx
    else set_actualHeight (Int32.to_int height)
           (set_actualWidth (Int32.to_int width) ctx) in
  let pitches := Int32.umul width' 2 in
  let lines := height' in
  let size := Int32.umul pitches lines in
  if can_allocate size
  then (set_buffer (vector_resize (Z.to_nat size) (buffer ctx1)) ctx1,
        mkFormatReply 1 "RV16" width' height' pitches lines)
  else (ctx1, mkFormatReply 0 "RV16" width' height' pitches lines).

(** The byte count [format_setup_cb] asks [resize] for, read off what it
    reports to the engine: the product of the pitch and the line count, as
    [unsigned]. *)
Definition requested_size (reply : FormatReply) : Z :=
  Int32.umul (fmt_pitches reply) (fmt_lines reply).

(** ** Calls that leave the translation unit *)

(** One constructor per outside function the bridge calls, with the
    arguments that matter and, where the callee answers, its answer.
    [DeleteLocalRef] has two: one for a reference given as a handle, one
    for the reference to a string, which the model knows by the string. *)
Inductive Event :=
  (* operator new / operator delete *)
  | New_PlayerContext (p : Z)
  | Delete_PlayerContext (p : Z)
  | New_GlobalContext (h : Z)
  | Delete_GlobalContext (h : Z)
  (* JavaVM and JNIEnv *)
  | GetEnv (status : Z)
  | AttachCurrentThread (status : Z)
  | DetachCurrentThread
  | NewGlobalRef (obj ref : Z)
  | DeleteGlobalRef (ref : Z)
  | GetObjectClass (obj : Z)
  | GetMethodID (obj : Z) (name sig : string) (mid : Z)
  | NewDirectByteBuffer (data : list Byte.byte) (capacity : Z) (buf : Z)
  | CallVoidMethod (obj mid buf w h : Z)
  | DeleteLocalRef (ref : Z)
  | DeleteLocalRef_jstring (s : string)
  (* LibVLC *)
  | libvlc_new (argv : list string) (inst : Z)
  | libvlc_release (inst : Z)
  | libvlc_media_new_location (inst : Z) (url : string) (media : Z)
  | libvlc_media_add_option (media : Z) (opt : string)
  | libvlc_media_player_new_from_media (media player : Z)
  | libvlc_media_release (media : Z)
  | libvlc_video_set_callbacks (player opaque : Z)
  | libvlc_video_set_format_callbacks (player : Z)
  | libvlc_media_player_play (player status : Z)
  | libvlc_media_player_stop (player : Z)
  | libvlc_media_player_release (player : Z).

Definition JNI_OK : Z := 0.
Definition JNI_EDETACHED : Z := -2.

(** What the Java side answers during one call into the bridge. A
    reference or method id of [0] is [NULL]. *)
Record Jvm := mkJvm {
  r_GetEnv : Z;
  r_AttachCurrentThread : Z;
  r_NewGlobalRef : Z;
  r_GetMethodID : Z;
  r_NewDirectByteBuffer : Z
}.

(** What LibVLC answers during one call into the bridge. *)
Record LibVLC := mkLibVLC {
  r_libvlc_new : Z;
  r_media_new_location : Z;
  r_media_player_new_from_media : Z;
  r_media_player_play : Z
}.

(** ** Free store and the command monad *)

Record Memory := mkMemory {
  globals : gmap Z GlobalContext;
  contexts : gmap Z PlayerContext
}.

Definition set_globals (v : gmap Z GlobalContext) (m : Memory) : Memory :=
  mkMemory v (contexts m).
Definition set_contexts (v : gmap Z PlayerContext) (m : Memory) : Memory :=
  mkMemory (globals m) v.

(** A command runs on a memory and either has no defined result or gives a
    value, the memory it leaves and the outside calls it made, in order. *)
Definition Cmd (A : Type) : Type := Memory → option (A * Memory * list Event).

Definition cmd_ret {A} (a : A) : Cmd A := λ m, Some (a, m, []).

Definition cmd_bind {A B} (k : A → Cmd B) (c : Cmd A) : Cmd B :=
  λ m, match c m with
       | Some (a, m1, t1) =>
           match k a m1 with
           | Some (b, m2, t2) => Some (b, m2, t1 ++ t2)
           | None => None
           end
       | None => None
       end.

Global Instance Cmd_ret : MRet Cmd := @cmd_ret.
Global Instance Cmd_bind : MBind Cmd := @cmd_bind.

Definition emit (e : Event) : Cmd unit := λ m, Some (tt, m, [e]).

(** [*p] for a [PlayerContext *p]. *)
Definition load_ctx (p : Z) : Cmd PlayerContext :=
  λ m, match contexts m !! p with
       | Some c => Some (c, m, [])
       | None => None
       end.

(** [p->field = v], as the function [f] on the object. *)
Definition modify_ctx (p : Z) (f : PlayerContext → PlayerContext) : Cmd unit :=
  λ m, match contexts m !! p with
       | Some c => Some (tt, set_contexts (<[p := f c]> (contexts m)) m, [])
       | None => None
       end.

(** [new PlayerContext()]: a fresh non-null address. *)
Definition new_ctx : Cmd Z :=
  λ m, let p := fresh ({[0]} ∪ dom (contexts m)) in
       Some (p, set_contexts (<[p := PlayerContext_init]> (contexts m)) m,
             [New_PlayerContext p]).

(** [delete p] for a non-null [PlayerContext *p]. *)
Definition delete_ctx (p : Z) : Cmd unit :=
  λ m, match contexts m !! p with
       | Some _ => Some (tt, set_contexts (delete p (contexts m)) m,
                         [Delete_PlayerContext p])
       | None => None
       end.

Definition load_global (h : Z) : Cmd GlobalContext :=
  λ m, match globals m !! h with
       | Some g => Some (g, m, [])
       | None => None
       end.

Definition modify_global (h : Z) (f : GlobalContext → GlobalContext) : Cmd unit :=
  λ m, match globals m !! h with
       | Some g => Some (tt, set_globals (<[h := f g]> (globals m)) m, [])
       | None => None
       end.

Definition new_global : Cmd Z :=
  λ m, let h := fresh ({[0]} ∪ dom (globals m)) in
       Some (h, set_globals (<[h := mkGlobalContext 0 ∅]> (globals m)) m,
             [New_GlobalContext h]).

Definition delete_global (h : Z) : Cmd unit :=
  λ m, match globals m !! h with
       | Some _ => Some (tt, set_globals (delete h (globals m)) m,
                         [Delete_GlobalContext h])
       | None => None
       end.

(** A statement guarded by [if (c)] with no [else]. *)
Definition when (c : bool) (body : Cmd unit) : Cmd unit :=
  if c then body else mret tt.

(** A [for] loop over a sequence. *)
Fixpoint for_each {A} (l : list A) (body : A → Cmd unit) : Cmd unit :=
  match l with
  | [] => mret tt
  | x :: l' => body x;; for_each l' body
  end.

(** Pointer tests: [if (p)] and [if (!p)]. *)
Definition nonnull (p : Z) : bool := negb (p =? 0).
Definition null (p : Z) : bool := p =? 0.

(** [globalCtx->mutex.lock()] and [globalCtx->mutex.unlock()] on the
    registry at [h]: the mutex lives inside the registry. *)
Definition mutex_lock (h : Z) : Cmd unit := load_global h;; mret tt.
Definition mutex_unlock (h : Z) : Cmd unit := load_global h;; mret tt.

(** [std::lock_guard<std::mutex> lock(globalCtx->mutex);] followed by the
    rest of the function body: the constructor locks, and the destructor
    unlocks when the function returns, on whichever path it returns. *)
Definition lock_guard {A} (h : Z) (rest : Cmd A) : Cmd A :=
  mutex_lock h;;
  r ← rest;
  mutex_unlock h;;
  mret r.

(** ** The callbacks LibVLC invokes *)

Definition getJNIEnv (vm : Jvm) (needsDetach : bool) : Cmd (bool * bool) :=
  let status := r_GetEnv vm in
  emit (GetEnv status);;
  if status =? JNI_OK then mret (true, false)
  else if status =? JNI_EDETACHED then
    emit (AttachCurrentThread (r_AttachCurrentThread vm));;
    if r_AttachCurrentThread vm =? JNI_OK then mret (true, true)
    else mret (false, needsDetach)
  else mret (false, needsDetach).

Definition format_setup_cb (can_allocate : Z → bool) (opaque width height : Z)
    : Cmd FormatReply :=
  ctx ← load_ctx opaque;
  let '(ctx', reply) := format_setup can_allocate ctx width height in
  modify_ctx opaque (λ _, ctx');;
  mret reply.

(** [lock_cb] hands the engine the buffer ([planes[0]]) and returns the
    context as the picture id. *)
Definition lock_cb (opaque : Z) : Cmd (list Byte.byte * Z) :=
  ctx ← load_ctx opaque;
  mret (buffer ctx, opaque).

Definition unlock_cb (opaque : Z) : Cmd unit := mret tt.

Definition display_cb (vm : Jvm) (opaque : Z) : Cmd unit :=
  if null opaque then mret tt else
  ctx ← load_ctx opaque;
  if null (frameHub ctx) then mret tt else
  '(env, needsDetach) ← getJNIEnv vm false;
  if negb env then mret tt else
  when (nonnull (onFrameMethod ctx)) (
    let buf := r_NewDirectByteBuffer vm in
    emit (NewDirectByteBuffer (buffer ctx) (Z.of_nat (length (buffer ctx))) buf);;
    when (nonnull buf) (
      emit (CallVoidMethod (frameHub ctx) (onFrameMethod ctx) buf
              (actualWidth ctx) (actualHeight ctx));;
      emit (DeleteLocalRef buf)));;
  when needsDetach (emit DetachCurrentThread).

(** ** Tearing one player down *)

Definition destroyPlayerContext (ctx : Z) : Cmd unit :=
  if null ctx then mret tt else
  c ← load_ctx ctx;
  when (nonnull (mp c)) (
    emit (libvlc_media_player_stop (mp c));;
    emit (libvlc_media_player_release (mp c));;
    modify_ctx ctx (set_mp 0));;
  c ← load_ctx ctx;
  when (nonnull (frameHub c)) (
    emit (DeleteGlobalRef (frameHub c));;
    modify_ctx ctx (set_frameHub 0));;
  delete_ctx ctx.

(** ** The JNI entry points *)

Definition nativeCreateVLC (engine : LibVLC) (args : list string) : Cmd Z :=
  globalCtx ← new_global;
  let inst := r_libvlc_new engine in
  emit (libvlc_new args inst);;
  modify_global globalCtx (set_vlc inst);;
  for_each args (λ string, emit (DeleteLocalRef_jstring string));;
  if null inst then delete_global globalCtx;; mret 0
  else mret globalCtx.

(** The order in which a [std::map<std::string, _>] is traversed. *)
Definition key_le (a b : string * Z) : Prop := String.leb a.1 b.1 = true.

Global Instance key_le_dec a b : Decision (key_le a b).
Proof. unfold key_le. apply _. Defined.

Definition in_key_order (m : gmap string Z) : list (string * Z) :=
  merge_sort key_le (map_to_list m).

(** The first half of the body of [nativeReleaseVLC]: the loop over the
    streams and [players.clear()]. *)
Definition release_all_streams (handle : Z) : Cmd unit :=
  g ← load_global handle;
  for_each (in_key_order (players g)) (λ entry, destroyPlayerContext entry.2);;
  modify_global handle (set_players ∅).

(** The second half: [libvlc_release] and [delete globalCtx]. *)
Definition release_instance (handle : Z) : Cmd unit :=
  g ← load_global handle;
  when (nonnull (vlc g)) (
    emit (libvlc_release (vlc g));;
    modify_global handle (set_vlc 0));;
  delete_global handle.

(** The guard is taken on the mutex of the registry, and the registry is
    deleted inside the guarded body: the unlock at the end of the function
    is made on the deleted registry. *)
Definition nativeReleaseVLC (handle : Z) : Cmd unit :=
  if null handle then mret tt else
  lock_guard handle (
    release_all_streams handle;;
    release_instance handle).

Definition nativeStart (vm : Jvm) (engine : LibVLC) (handle : Z) (url : string)
    (hub : Z) (width height : Z) (args : option (list string)) : Cmd bool :=
  if null handle then mret false else
  g ← load_global handle;
  if null (vlc g) then mret false else
  lock_guard handle (
    match players g !! url with
    | Some old =>
        destroyPlayerContext old;;
        modify_global handle (λ g, set_players (delete url (players g)) g)
    | None => mret tt
    end;;
    ctx ← new_ctx;
    modify_ctx ctx (set_actualWidth width);;
    modify_ctx ctx (set_actualHeight height);;
    emit (NewGlobalRef hub (r_NewGlobalRef vm));;
    modify_ctx ctx (set_frameHub (r_NewGlobalRef vm));;
    emit (GetObjectClass hub);;
    emit (GetMethodID hub "onRawFrame" "(Ljava/nio/ByteBuffer;II)V" (r_GetMethodID vm));;
    modify_ctx ctx (set_onFrameMethod (r_GetMethodID vm));;
    g ← load_global handle;
    let media := r_media_new_location engine in
    emit (libvlc_media_new_location (vlc g) url media);;
    if null media then
      delete_ctx ctx;;
      mret false
    else
      match args with
      | Some opts =>
          for_each opts (λ opt,
            emit (libvlc_media_add_option media opt);;
            emit (DeleteLocalRef_jstring opt))
      | None => mret tt
      end;;
      emit (libvlc_media_player_new_from_media media (r_media_player_new_from_media engine));;
      modify_ctx ctx (set_mp (r_media_player_new_from_media engine));;
      emit (libvlc_media_release media);;
      c ← load_ctx ctx;
      emit (libvlc_video_set_callbacks (mp c) ctx);;
      emit (libvlc_video_set_format_callbacks (mp c));;
      let status := r_media_player_play engine in
      emit (libvlc_media_player_play (mp c) status);;
      if negb (status =? 0) then
        destroyPlayerContext ctx;;
        mret false
      else
        modify_global handle (λ g, set_players (<[url := ctx]> (players g)) g);;
        mret true).

Definition nativeReleaseMedia (handle : Z) (url : string) : Cmd bool :=
  if null handle then mret false else
  g ← load_global handle;
  if null (vlc g) then mret false else
  lock_guard handle (
    match players g !! url with
    | Some p =>
        destroyPlayerContext p;;
        modify_global handle (λ g, set_players (delete url (players g)) g);;
        mret true
    | None => mret false
    end).


(** ** Vocabulary for the properties *)

(** A result with the events [t] put in front of its own. *)
Definition after (t : list Event) {A} (r : option (A * Memory * list Event))
    : option (A * Memory * list Event) :=
  match r with
  | Some (a, m, t') => Some (a, m, t ++ t')
  | None => None
  end.

(** What the unlock at the end of a guarded body makes of the result [r]
    of the body: the result itself when the registry at [h] is still
    live. *)
Definition guard_exit (h : Z) {A} (r : option (A * Memory * list Event))
    : option (A * Memory * list Event) :=
  match r with
  | Some (a, m, t) =>
      match globals m !! h with
      | Some _ => Some (a, m, t)
      | None => None
      end
  | None => None
  end.

(** A frame handed to the Java sink: one [CallVoidMethod]. *)
Definition is_delivery (e : Event) : bool :=
  match e with
  | CallVoidMethod _ _ _ _ _ => true
  | _ => false
  end.

Definition deliveries (t : list Event) : nat := length (List.filter is_delivery t).

(** The calling thread can be given a [JNIEnv]: it is attached already, or
    it is detached and attaching it works. *)
Definition env_reachable (vm : Jvm) : bool :=
  (r_GetEnv vm =? JNI_OK) ||
  ((r_GetEnv vm =? JNI_EDETACHED) && (r_AttachCurrentThread vm =? JNI_OK)).

(** What tearing down the context [c] at address [p] calls, in order. *)
Definition destroy_events (p : Z) (c : PlayerContext) : list Event :=
  (if nonnull (mp c)
   then [libvlc_media_player_stop (mp c); libvlc_media_player_release (mp c)]
   else []) ++
  (if nonnull (frameHub c) then [DeleteGlobalRef (frameHub c)] else []) ++
  [Delete_PlayerContext p].

(** In the trace [t], every [delete] of the context at [p] comes after a
    stop of [player]. *)
Definition stop_precedes_delete (player p : Z) (t : list Event) : Prop :=
  ∀ t1 t2, t = t1 ++ Delete_PlayerContext p :: t2 →
           In (libvlc_media_player_stop player) t1.

(** In the trace [t], whatever tears the session down (the release of
    [player], the release of the sink reference [hub], the [delete] of
    the context at [p]) comes after a stop of [player]. *)
Definition stop_precedes_teardown (player hub p : Z) (t : list Event) : Prop :=
  ∀ t1 e t2, t = t1 ++ e :: t2 →
    e = libvlc_media_player_release player ∨ e = DeleteGlobalRef hub ∨
    e = Delete_PlayerContext p →
    In (libvlc_media_player_stop player) t1.

(** In the trace [t], the session whose context [c] is at [p] is torn
    down in one block: the stop of its player, the release of that player,
    the release of its sink reference if it holds one, the [delete] of the
    context; and the context is not deleted before that block. *)
Definition torn_down_in_order (p : Z) (c : PlayerContext) (t : list Event) : Prop :=
  ∃ tA tB,
    t = tA ++
        (libvlc_media_player_stop (mp c) :: libvlc_media_player_release (mp c) ::
         (if nonnull (frameHub c) then [DeleteGlobalRef (frameHub c)] else []) ++
         [Delete_PlayerContext p]) ++ tB ∧
    ¬ In (Delete_PlayerContext p) tA.

(** No other stream of the registry [g] holds the player or the sink
    reference of the context [c] at [p]. *)
Definition handles_unshared (m : Memory) (g : GlobalContext) (p : Z) (c : PlayerContext)
    : Prop :=
  ∀ url' p' c', players g !! url' = Some p' → p' ≠ p → contexts m !! p' = Some c' →
                mp c' ≠ mp c ∧ (frameHub c' = 0 ∨ frameHub c' ≠ frameHub c).

(** The registry invariant: every registered stream points to a live
    context with a player, and no context is registered twice. *)
Definition registry_ok (m : Memory) (g : GlobalContext) : Prop :=
  (∀ url p, players g !! url = Some p →
            p ≠ 0 ∧ ∃ c, contexts m !! p = Some c ∧ mp c ≠ 0) ∧
  (∀ url1 url2 p, players g !! url1 = Some p → players g !! url2 = Some p →
                  url1 = url2).

(** The context a successful [nativeStart] registers. *)
Definition new_context (vm : Jvm) (engine : LibVLC) (width height : Z) : PlayerContext :=
  mkPlayerContext (r_NewGlobalRef vm) (r_GetMethodID vm)
    (r_media_player_new_from_media engine) [] width height.

(** The calls [nativeStart] makes for a new stream, up to and including
    [libvlc_media_new_location]; [p] is the address of the new context. *)
Definition open_events (vm : Jvm) (engine : LibVLC) (inst : Z) (url : string)
    (hub p : Z) : list Event :=
  [New_PlayerContext p;
   NewGlobalRef hub (r_NewGlobalRef vm);
   GetObjectClass hub;
   GetMethodID hub "onRawFrame" "(Ljava/nio/ByteBuffer;II)V" (r_GetMethodID vm);
   libvlc_media_new_location inst url (r_media_new_location engine)].

(** The calls the loop over the media options makes. *)
Definition option_events (media : Z) (opts : list string) : list Event :=
  flat_map (λ opt, [libvlc_media_add_option media opt; DeleteLocalRef_jstring opt]) opts.

(** The calls from the media options to [libvlc_media_player_play]. *)
Definition play_events (engine : LibVLC) (args : option (list string)) (p : Z)
    : list Event :=
  match args with
  | Some opts => option_events (r_media_new_location engine) opts
  | None => []
  end ++
  [libvlc_media_player_new_from_media (r_media_new_location engine)
     (r_media_player_new_from_media engine);
   libvlc_media_release (r_media_new_location engine);
   libvlc_video_set_callbacks (r_media_player_new_from_media engine) p;
   libvlc_video_set_format_callbacks (r_media_player_new_from_media engine);
   libvlc_media_player_play (r_media_player_new_from_media engine)
     (r_media_player_play engine)].

(** The contexts left once the entries of [l] have been torn down. *)
Fixpoint contexts_after_destroy (l : list (string * Z)) (cs : gmap Z PlayerContext)
    : gmap Z PlayerContext :=
  match l with
  | [] => cs
  | e :: l' => contexts_after_destroy l' (delete e.2 cs)
  end.

(** What tearing down the entries of [l], first to last, calls. *)
Fixpoint destroy_all_events (l : list (string * Z)) (cs : gmap Z PlayerContext)
    : list Event :=
  match l with
  | [] => []
  | e :: l' =>
      match cs !! e.2 with
      | Some c => destroy_events e.2 c
      | None => []
      end ++ destroy_all_events l' (delete e.2 cs)
  end.

(** The stream map of the registry at [h]; empty when [h] is not live. *)
Definition players_at (m : Memory) (h : Z) : gmap string Z :=
  match globals m !! h with
  | Some g => players g
  | None => ∅
  end.


(** ** A small registry to run the entry points on *)

Definition demo_url : string := "rtsp://camera/1".

(** A context as [nativeStart] leaves it: sink reference 5, method id 6,
    player 300, no buffer yet, dimensions forced to 640 x 480. *)
Definition demo_ctx : PlayerContext := mkPlayerContext 5 6 300 [] 640 480.

Definition demo_global : GlobalContext := mkGlobalContext 100 {[ demo_url := 1 ]}.

(** One registry at handle 50, with one stream whose context is at 1. *)
Definition demo_memory : Memory := mkMemory {[ 50 := demo_global ]} {[ 1 := demo_ctx ]}.

(** An empty registry at handle 50. *)
Definition empty_memory : Memory := mkMemory {[ 50 := mkGlobalContext 100 ∅ ]} ∅.

(** A Java side on which everything works: the thread is detached and can
    be attached, references 7 and 9 and method id 8 are handed out. *)
Definition demo_vm : Jvm := mkJvm JNI_EDETACHED JNI_OK 7 8 9.

(** A LibVLC on which everything works. *)
Definition demo_engine : LibVLC := mkLibVLC 100 200 301 0.

(** A LibVLC that cannot open the location. *)
Definition no_media_engine : LibVLC := mkLibVLC 100 0 301 0.

(** A LibVLC that opens the location and then fails to play. *)
Definition no_play_engine : LibVLC := mkLibVLC 100 200 301 (-1).

(** One stream from creation to release: create the registry, start a
    stream with no forced size, let the engine negotiate 4 x 2 and show a
    frame, release the stream, and release it once more. *)
Definition one_stream_scenario : Cmd (Z * bool * FormatReply * bool * bool) :=
  h ← nativeCreateVLC demo_engine [];
  started ← nativeStart demo_vm demo_engine h "mock://a" 77 0 0 (Some ["--no-audio"]);
  ctx ← (λ m, Some (default 0 (players_at m h !! "mock://a"), m, []));
  reply ← format_setup_cb (λ _, true) ctx 4 2;
  display_cb demo_vm ctx;;
  released ← nativeReleaseMedia h "mock://a";
  again ← nativeReleaseMedia h "mock://a";
  mret (h, started, reply, released, again).

(** ** Library load *)

Definition JNI_VERSION_1_6 : Z := 65542.

(** [JNI_OnLoad]: the value stored in [g_vm] and the value returned. *)
Definition JNI_OnLoad (vm : Jvm) : Cmd (Jvm * Z) :=
  emit (GetEnv (r_GetEnv vm));;
  if negb (r_GetEnv vm =? JNI_OK) then mret (vm, -1)
  else mret (vm, JNI_VERSION_1_6).

(** ** Sequences of calls on one registry *)

(** What can happen to a registry between its creation and its release:
    the host starts or releases a stream, or the engine calls back on the
    context of a registered stream. *)
Inductive Op :=
  | OpStart (vm : Jvm) (engine : LibVLC) (url : string) (hub width height : Z)
      (args : option (list string))
  | OpRelease (url : string)
  | OpNegotiate (can_allocate : Z → bool) (url : string) (width height : Z)
  | OpLock (url : string)
  | OpUnlock (url : string)
  | OpDisplay (vm : Jvm) (url : string).

(** A callback of the engine for the stream [url] of the registry at [h]:
    the engine holds the context it was given at [nativeStart]; it calls
    nothing for a stream that is not registered. *)
Definition on_stream (h : Z) (url : string) (callback : Z → Cmd unit) : Cmd unit :=
  λ m, match players_at m h !! url with
       | Some p => callback p m
       | None => Some (tt, m, [])
       end.

Definition run_op (h : Z) (op : Op) : Cmd unit :=
  match op with
  | OpStart vm engine url hub width height args =>
      nativeStart vm engine h url hub width height args;; mret tt
  | OpRelease url => nativeReleaseMedia h url;; mret tt
  | OpNegotiate can_allocate url width height =>
      on_stream h url (λ p, format_setup_cb can_allocate p width height;; mret tt)
  | OpLock url => on_stream h url (λ p, lock_cb p;; mret tt)
  | OpUnlock url => on_stream h url unlock_cb
  | OpDisplay vm url => on_stream h url (display_cb vm)
  end.

Definition run_ops (h : Z) (ops : list Op) : Cmd unit := for_each ops (run_op h).

(** The one outside answer the bridge does not check: the player
    [libvlc_media_player_new_from_media] returns. *)
Definition op_has_player (op : Op) : Prop :=
  match op with
  | OpStart _ engine _ _ _ _ _ => r_media_player_new_from_media engine ≠ 0
  | _ => True
  end.

(** An event that hands [NULL] to a function that releases or uses a
    handle. *)
Definition passes_null (e : Event) : bool :=
  match e with
  | libvlc_media_player_stop p | libvlc_media_player_release p => p =? 0
  | DeleteGlobalRef r | DeleteLocalRef r => r =? 0
  | CallVoidMethod obj mid buf _ _ => (obj =? 0) || (mid =? 0) || (buf =? 0)
  | _ => false
  end.


(** * Properties *)

(** ** Machine integers and vectors *)

Module Int32Facts.
Import Int32.

Lemma to_unsigned_range z : is_unsigned (to_unsigned z).
Proof. unfold is_unsigned, to_unsigned, modulus. apply Z.mod_pos_bound. lia. Qed.

Lemma to_int_range z : is_int (to_int z).
Proof.
  unfold is_int, to_int, half_modulus, modulus.
  pose proof (Z.mod_pos_bound (z + 2 ^ 31) (2 ^ 32)). lia.
Qed.

Lemma to_unsigned_id z : is_unsigned z → to_unsigned z = z.
Proof. unfold is_unsigned, to_unsigned. intros. by apply Z.mod_small. Qed.

Lemma to_int_id z : is_int z → to_int z = z.
Proof.
  unfold is_int, to_int, half_modulus, modulus. intros.
  rewrite Z.mod_small; lia.
Qed.

Lemma to_unsigned_pos_int z : 0 < z → is_int z → to_unsigned z = z.
Proof.
  unfold is_int, half_modulus. intros. apply to_unsigned_id.
  unfold is_unsigned, modulus. lia.
Qed.

Lemma umul_range a b : is_unsigned (umul a b).
Proof. apply to_unsigned_range. Qed.

Lemma umul_exact a b : 0 <= a * b < modulus → umul a b = a * b.
Proof. unfold umul. intros. by apply Z.mod_small. Qed.

End Int32Facts.

Lemma vector_resize_length n v : length (vector_resize n v) = n.
Proof.
  unfold vector_resize. rewrite length_app, length_take, length_replicate. lia.
Qed.

Lemma vector_resize_prefix n v i :
  (i < n)%nat → (i < length v)%nat → vector_resize n v !! i = v !! i.
Proof.
  intros Hn Hv. unfold vector_resize.
  rewrite lookup_app_l by (rewrite length_take; lia).
  by rewrite lookup_take_lt.
Qed.

(** ** Running commands *)

Lemma run_bind {A B} (c : Cmd A) (k : A → Cmd B) m :
  (c ≫= k) m = match c m with
               | Some (a, m1, t1) => after t1 (k a m1)
               | None => None
               end.
Proof. reflexivity. Qed.

Lemma run_bind_Some {A B} (c : Cmd A) (k : A → Cmd B) m a m1 t1 :
  c m = Some (a, m1, t1) → (c ≫= k) m = after t1 (k a m1).
Proof. intros H. by rewrite run_bind, H. Qed.

Lemma run_ret {A} (a : A) m : (mret a : Cmd A) m = Some (a, m, []).
Proof. reflexivity. Qed.

Lemma after_nil {A} (r : option (A * Memory * list Event)) : after [] r = r.
Proof. by destruct r as [[[??]?]|]. Qed.

Lemma after_after {A} t1 t2 (r : option (A * Memory * list Event)) :
  after t1 (after t2 r) = after (t1 ++ t2) r.
Proof. destruct r as [[[??]?]|]; [|done]. simpl. by rewrite app_assoc. Qed.

Lemma after_Some {A} t (a : A) m t' : after t (Some (a, m, t')) = Some (a, m, t ++ t').
Proof. reflexivity. Qed.

Lemma run_emit_bind {B} e (k : unit → Cmd B) m :
  (emit e ≫= k) m = after [e] (k tt m).
Proof. reflexivity. Qed.

Lemma run_load_ctx p c m : contexts m !! p = Some c → load_ctx p m = Some (c, m, []).
Proof. intros H. unfold load_ctx. by rewrite H. Qed.

Lemma run_modify_ctx p f c m :
  contexts m !! p = Some c →
  modify_ctx p f m = Some (tt, set_contexts (<[p := f c]> (contexts m)) m, []).
Proof. intros H. unfold modify_ctx. by rewrite H. Qed.

Lemma run_delete_ctx p c m :
  contexts m !! p = Some c →
  delete_ctx p m = Some (tt, set_contexts (delete p (contexts m)) m, [Delete_PlayerContext p]).
Proof. intros H. unfold delete_ctx. by rewrite H. Qed.

Lemma run_load_global h g m : globals m !! h = Some g → load_global h m = Some (g, m, []).
Proof. intros H. unfold load_global. by rewrite H. Qed.

Lemma run_modify_global h f g m :
  globals m !! h = Some g →
  modify_global h f m = Some (tt, set_globals (<[h := f g]> (globals m)) m, []).
Proof. intros H. unfold modify_global. by rewrite H. Qed.

Lemma run_delete_global h g m :
  globals m !! h = Some g →
  delete_global h m = Some (tt, set_globals (delete h (globals m)) m, [Delete_GlobalContext h]).
Proof. intros H. unfold delete_global. by rewrite H. Qed.

Lemma nonnull_true p : p ≠ 0 → nonnull p = true.
Proof. intros. unfold nonnull. by destruct (Z.eqb_spec p 0). Qed.

Lemma null_false p : p ≠ 0 → null p = false.
Proof. intros. unfold null. by destruct (Z.eqb_spec p 0). Qed.

Lemma nonnull_spec p : nonnull p = true ↔ p ≠ 0.
Proof. unfold nonnull. destruct (Z.eqb_spec p 0); naive_solver. Qed.

(** ** Format negotiation *)

(** [format_setup_cb] is defined on every live context, changes only that
    context and calls nothing outside. *)
Lemma format_setup_cb_run can_allocate opaque width height m ctx :
  contexts m !! opaque = Some ctx →
  format_setup_cb can_allocate opaque width height m =
    Some ((format_setup can_allocate ctx width height).2,
          set_contexts (<[opaque := (format_setup can_allocate ctx width height).1]> (contexts m)) m,
          []).
Proof.
  intros H. unfold format_setup_cb.
  rewrite (run_bind_Some _ _ _ _ _ _ (run_load_ctx _ _ _ H)), after_nil.
  destruct (format_setup can_allocate ctx width height) as [ctx' reply]; simpl.
  by rewrite (run_bind_Some _ _ _ _ _ _ (run_modify_ctx _ _ _ _ H)).
Qed.

(** When the context carries caller-chosen dimensions, both positive, the
    engine is told exactly those and the context keeps them. *)
Lemma format_setup_forced can_allocate ctx width height :
  0 < actualWidth ctx → 0 < actualHeight ctx →
  Int32.is_int (actualWidth ctx) → Int32.is_int (actualHeight ctx) →
  let '(ctx', reply) := format_setup can_allocate ctx width height in
  fmt_width reply = actualWidth ctx ∧ fmt_height reply = actualHeight ctx ∧
  actualWidth ctx' = actualWidth ctx ∧ actualHeight ctx' = actualHeight ctx.
Proof.
  intros Hw Hh Hiw Hih. unfold format_setup.
  destruct (Z.ltb_spec 0 (actualWidth ctx)); [|lia].
  destruct (Z.ltb_spec 0 (actualHeight ctx)); [|lia]. simpl.
  rewrite !Int32Facts.to_unsigned_pos_int by done.
  by destruct (can_allocate _).
Qed.

(** Otherwise the engine's proposal is returned as it came and written to
    the context (converted to [int]). *)
Lemma format_setup_adopt can_allocate ctx width height :
  ¬ (0 < actualWidth ctx ∧ 0 < actualHeight ctx) →
  let '(ctx', reply) := format_setup can_allocate ctx width height in
  fmt_width reply = width ∧ fmt_height reply = height ∧
  actualWidth ctx' = Int32.to_int width ∧ actualHeight ctx' = Int32.to_int height.
Proof.
  intros Hn. unfold format_setup.
  destruct (Z.ltb_spec 0 (actualWidth ctx)), (Z.ltb_spec 0 (actualHeight ctx));
    try lia; simpl; by destruct (can_allocate _).
Qed.

(** On success the buffer has exactly the requested number of bytes, and
    the pitch and line count reported are twice the width and the height,
    as [unsigned]. *)
Lemma format_setup_buffer can_allocate ctx width height :
  let '(ctx', reply) := format_setup can_allocate ctx width height in
  fmt_pitches reply = Int32.umul (fmt_width reply) 2 ∧
  fmt_lines reply = fmt_height reply ∧
  (fmt_result reply = 1 ∨ fmt_result reply = 0) ∧
  (fmt_result reply = 1 ↔ can_allocate (requested_size reply) = true) ∧
  (fmt_result reply = 1 → Z.of_nat (length (buffer ctx')) = requested_size reply) ∧
  (fmt_result reply = 0 → buffer ctx' = buffer ctx).
Proof.
  unfold format_setup, requested_size.
  set (forced := (0 <? actualWidth ctx) && (0 <? actualHeight ctx)).
  set (w := if forced then _ else width).
  set (h := if forced then _ else height).
  destruct (can_allocate (Int32.umul (Int32.umul w 2) h)) eqn:Ha; simpl.
  - rewrite Ha, vector_resize_length.
    pose proof (Int32Facts.umul_range (Int32.umul w 2) h) as Hr.
    unfold Int32.is_unsigned in Hr. repeat split; auto; try done. lia.
  - rewrite Ha. repeat split; auto; try done. by destruct forced.
Qed.

(** As long as twice the width times the height fits 32 bits, a successful
    negotiation leaves a buffer of [width * height * 2] bytes. *)
Lemma format_setup_buffer_no_wrap can_allocate ctx width height :
  let '(ctx', reply) := format_setup can_allocate ctx width height in
  0 <= fmt_width reply → 0 <= fmt_height reply →
  fmt_width reply * 2 * fmt_height reply < Int32.modulus →
  fmt_result reply = 1 →
  Z.of_nat (length (buffer ctx')) = fmt_width reply * fmt_height reply * 2.
Proof.
  pose proof (format_setup_buffer can_allocate ctx width height) as H.
  destruct (format_setup can_allocate ctx width height) as [ctx' reply].
  destruct H as (Hp & Hl & _ & _ & Hlen & _).
  intros Hw Hh Hfit Hok. rewrite (Hlen Hok). unfold requested_size.
  rewrite Hp, Hl.
  destruct (decide (fmt_height reply = 0)) as [->|Hne].
  { unfold Int32.umul. by rewrite !Z.mul_0_r. }
  assert (0 <= fmt_width reply * 2 < Int32.modulus) as H2.
  { unfold Int32.modulus in *. nia. }
  rewrite (Int32Facts.umul_exact _ 2 H2).
  rewrite Int32Facts.umul_exact by (unfold Int32.modulus in *; nia). lia.
Qed.

(** C1, at caller-forced dimensions 65536 x 32768: the negotiation reports
    success, returns the forced dimensions with a pitch of 131072 bytes and
    32768 lines, and leaves an empty buffer, since the byte count
    131072 * 32768 = 2^32 wraps to 0 in [unsigned] arithmetic. The claimed
    lower bound [finalWidth * finalHeight * 2] on the buffer size does not
    hold there. *)
Theorem format_setup_cb_size_wraps :
  let ctx := mkPlayerContext 7 9 11 [] 65536 32768 in
  let m := mkMemory ∅ {[ 1 := ctx ]} in
  ∃ reply m' ctx',
    format_setup_cb (λ _, true) 1 1920 1080 m = Some (reply, m', []) ∧
    contexts m' !! 1 = Some ctx' ∧
    fmt_result reply = 1 ∧
    fmt_width reply = 65536 ∧ fmt_height reply = 32768 ∧
    fmt_pitches reply = 131072 ∧ fmt_lines reply = 32768 ∧
    Z.of_nat (length (buffer ctx')) = 0 ∧
    Z.of_nat (length (buffer ctx')) < fmt_width reply * fmt_height reply * 2.
Proof.
  intros ctx m.
  eexists _, _, _. split; [|split].
  - apply (format_setup_cb_run _ 1 1920 1080 m ctx). reflexivity.
  - simpl. apply lookup_insert_eq.
  - vm_compute. repeat split; reflexivity.
Qed.

(** C7: on a live context [format_setup_cb] always returns, and when
    [resize] to the requested byte count fails it returns 0, with the
    buffer as it was. *)
Theorem format_setup_cb_allocation_failure can_allocate opaque width height m ctx :
  contexts m !! opaque = Some ctx →
  ∃ reply m' ctx',
    format_setup_cb can_allocate opaque width height m = Some (reply, m', []) ∧
    contexts m' !! opaque = Some ctx' ∧
    (can_allocate (requested_size reply) = false →
     fmt_result reply = 0 ∧ buffer ctx' = buffer ctx).
Proof.
  intros Hlive.
  pose proof (format_setup_buffer can_allocate ctx width height) as H.
  rewrite (format_setup_cb_run _ _ _ _ _ _ Hlive).
  destruct (format_setup can_allocate ctx width height) as [ctx' reply].
  destruct H as (_ & _ & Hres & Hiff & _ & Hbuf).
  simpl. eexists reply, _, ctx'. split; [done|]. split; [apply lookup_insert_eq|].
  intros Hfail. assert (fmt_result reply = 0) as H0.
  { destruct Hres as [H1|]; [|done]. apply Hiff in H1. congruence. }
  auto.
Qed.

Lemma format_setup_cb_allocation_failure_witness :
  ∃ reply m' ctx',
    format_setup_cb (λ n, n <? 100000) 1 320 240
      (mkMemory ∅ {[ 1 := mkPlayerContext 7 9 11 [] 0 0 ]}) = Some (reply, m', []) ∧
    contexts m' !! 1 = Some ctx' ∧
    fmt_result reply = 0 ∧ buffer ctx' = [].
Proof.
  set (ctx := mkPlayerContext 7 9 11 [] 0 0).
  set (m := mkMemory ∅ {[ 1 := ctx ]}).
  assert (contexts m !! 1 = Some ctx) as Hlive by reflexivity.
  destruct (format_setup_cb_allocation_failure (λ n, n <? 100000) 1 320 240 m ctx Hlive)
    as (reply & m' & ctx' & Hrun & Hctx & Hfail).
  exists reply, m', ctx'. split; [exact Hrun|]. split; [exact Hctx|].
  apply Hfail.
  rewrite (format_setup_cb_run _ _ _ _ _ _ Hlive) in Hrun.
  injection Hrun as <- _. reflexivity.
Defined.

(** ** Frame delivery *)

Ltac cmd_eval :=
  cbv [mbind mret Cmd_bind Cmd_ret cmd_bind cmd_ret emit after when]; simpl.

Lemma getJNIEnv_run vm nd m :
  getJNIEnv vm nd m =
    if r_GetEnv vm =? JNI_OK then Some ((true, false), m, [GetEnv (r_GetEnv vm)])
    else if r_GetEnv vm =? JNI_EDETACHED then
      if r_AttachCurrentThread vm =? JNI_OK
      then Some ((true, true), m,
                 [GetEnv (r_GetEnv vm); AttachCurrentThread (r_AttachCurrentThread vm)])
      else Some ((false, nd), m,
                 [GetEnv (r_GetEnv vm); AttachCurrentThread (r_AttachCurrentThread vm)])
    else Some ((false, nd), m, [GetEnv (r_GetEnv vm)]).
Proof.
  unfold getJNIEnv. rewrite run_emit_bind.
  destruct (r_GetEnv vm =? JNI_OK); [done|].
  destruct (r_GetEnv vm =? JNI_EDETACHED); [|done].
  rewrite run_emit_bind.
  by destruct (r_AttachCurrentThread vm =? JNI_OK).
Qed.

(** [getJNIEnv] reports that a detach is owed exactly when it attached the
    thread itself. *)
Lemma getJNIEnv_needsDetach vm m :
  ∃ env needsDetach t,
    getJNIEnv vm false m = Some ((env, needsDetach), m, t) ∧
    (needsDetach = true ↔ In (AttachCurrentThread JNI_OK) t) ∧
    (env = true ↔ env_reachable vm = true).
Proof.
  rewrite getJNIEnv_run. unfold env_reachable.
  destruct (Z.eqb_spec (r_GetEnv vm) JNI_OK) as [E1|E1].
  { eexists _, _, _. split; [done|]. rewrite E1. simpl. split; [|done].
    split; [done|]. intros [H|[]]. discriminate. }
  destruct (Z.eqb_spec (r_GetEnv vm) JNI_EDETACHED) as [E2|E2];
    [destruct (Z.eqb_spec (r_AttachCurrentThread vm) JNI_OK) as [E3|E3]|];
    eexists _, _, _; (split; [done|]); simpl; (split; [|done]).
  - rewrite E3. naive_solver.
  - split; [done|]. intros [H|[H|[]]]; [discriminate|]. injection H as H. done.
  - split; [done|]. intros [H|[]]. discriminate.
Qed.

(** The prelude of every proof about [display_cb] on a live context with a
    sink: both early returns are passed and [getJNIEnv] has run. *)
Lemma display_cb_unfold vm opaque m ctx :
  contexts m !! opaque = Some ctx → opaque ≠ 0 → frameHub ctx ≠ 0 →
  display_cb vm opaque m =
    match getJNIEnv vm false m with
    | Some ((env, needsDetach), m1, t1) =>
        after t1
          ((if negb env then mret tt else
              when (nonnull (onFrameMethod ctx)) (
                let buf := r_NewDirectByteBuffer vm in
                emit (NewDirectByteBuffer (buffer ctx)
                        (Z.of_nat (length (buffer ctx))) buf);;
                when (nonnull buf) (
                  emit (CallVoidMethod (frameHub ctx) (onFrameMethod ctx) buf
                          (actualWidth ctx) (actualHeight ctx));;
                  emit (DeleteLocalRef buf)));;
              when needsDetach (emit DetachCurrentThread)) m1)
    | None => None
    end.
Proof.
  intros Hl Ho Hh. unfold display_cb.
  rewrite (null_false _ Ho).
  rewrite (run_bind_Some _ _ _ _ _ _ (run_load_ctx _ _ _ Hl)), after_nil.
  rewrite (null_false _ Hh), run_bind.
  by destruct (getJNIEnv vm false m) as [[[[??]?]?]|].
Qed.

Lemma nonnull_false p : nonnull p = false ↔ p = 0.
Proof. unfold nonnull. destruct (Z.eqb_spec p 0); naive_solver. Qed.

Ltac display_cases vm ctx :=
  let E1 := fresh "Eenv" in
  let E2 := fresh "Edet" in
  let E3 := fresh "Eatt" in
  let E4 := fresh "Emid" in
  let E5 := fresh "Ebuf" in
  rewrite getJNIEnv_run;
  (destruct (r_GetEnv vm =? JNI_OK) eqn:E1;
   [|destruct (r_GetEnv vm =? JNI_EDETACHED) eqn:E2;
     [destruct (r_AttachCurrentThread vm =? JNI_OK) eqn:E3|]]);
  (destruct (nonnull (onFrameMethod ctx)) eqn:E4;
   [apply nonnull_spec in E4|apply nonnull_false in E4]);
  (destruct (nonnull (r_NewDirectByteBuffer vm)) eqn:E5;
   [apply nonnull_spec in E5|apply nonnull_false in E5]);
  cmd_eval.

(** C8 as stated fails: with a sink installed and the thread attached, no
    frame is delivered when [NewDirectByteBuffer] returns [NULL]. *)
Lemma display_cb_delivery_counterexample :
  ¬ (∀ vm opaque m ctx,
       contexts m !! opaque = Some ctx → opaque ≠ 0 →
       frameHub ctx ≠ 0 → env_reachable vm = true →
       ∃ m' t, display_cb vm opaque m = Some (tt, m', t) ∧ deliveries t = 1%nat).
Proof.
  intros H.
  set (ctx := mkPlayerContext 7 9 11 [] 320 240).
  set (m := mkMemory ∅ {[ 1 := ctx ]}).
  assert (contexts m !! 1 = Some ctx) as Hl by reflexivity.
  destruct (H (mkJvm JNI_OK 0 5 9 0) 1 m ctx Hl) as (m' & t & Hrun & Hone);
    [done|done|done|].
  vm_compute in Hrun. injection Hrun as _ <-. vm_compute in Hone. discriminate.
Qed.

(** C8, amended: on a live context whose sink is installed, whose frame
    method was resolved, with a reachable environment and a byte-buffer
    view that could be created, [display_cb] makes exactly one delivery, of
    a view over the current buffer with the current width and height, and
    leaves the memory as it was. On a live context with a sink there is
    never more than that one delivery, and there is none when the method id
    or the view is [NULL] or the environment is out of reach. Without a
    sink nothing is called at all. *)
Theorem display_cb_delivers vm opaque m ctx :
  contexts m !! opaque = Some ctx → opaque ≠ 0 →
  (frameHub ctx ≠ 0 →
   ∃ t, display_cb vm opaque m = Some (tt, m, t) ∧
     (onFrameMethod ctx ≠ 0 → env_reachable vm = true →
      r_NewDirectByteBuffer vm ≠ 0 →
      deliveries t = 1%nat ∧
      ∃ t1 t2, t = t1 ++
        [NewDirectByteBuffer (buffer ctx) (Z.of_nat (length (buffer ctx)))
           (r_NewDirectByteBuffer vm);
         CallVoidMethod (frameHub ctx) (onFrameMethod ctx)
           (r_NewDirectByteBuffer vm) (actualWidth ctx) (actualHeight ctx);
         DeleteLocalRef (r_NewDirectByteBuffer vm)] ++ t2) ∧
     (onFrameMethod ctx = 0 ∨ env_reachable vm = false ∨
      r_NewDirectByteBuffer vm = 0 → deliveries t = 0%nat)) ∧
  (frameHub ctx = 0 → display_cb vm opaque m = Some (tt, m, [])).
Proof.
  intros Hl Ho. split.
  - intros Hh. rewrite (display_cb_unfold _ _ _ _ Hl Ho Hh).
    unfold env_reachable.
    display_cases vm ctx; eexists; (split; [reflexivity|]);
      (split; [intros; try discriminate; try done
              | intros [?|[?|?]]; try discriminate; try done]).
    + split; [done|]. by exists [GetEnv (r_GetEnv vm)], [].
    + split; [done|].
      by exists [GetEnv (r_GetEnv vm); AttachCurrentThread (r_AttachCurrentThread vm)],
                [DetachCurrentThread].
  - intros Hh. unfold display_cb. rewrite (null_false _ Ho).
    rewrite (run_bind_Some _ _ _ _ _ _ (run_load_ctx _ _ _ Hl)), after_nil.
    unfold null. by rewrite Hh.
Qed.

Lemma display_cb_delivers_witness :
  ∃ t, display_cb (mkJvm JNI_EDETACHED JNI_OK 5 9 8) 1
         (mkMemory ∅ {[ 1 := mkPlayerContext 7 9 11 [] 320 240 ]})
       = Some (tt, mkMemory ∅ {[ 1 := mkPlayerContext 7 9 11 [] 320 240 ]}, t) ∧
       deliveries t = 1%nat.
Proof.
  set (ctx := mkPlayerContext 7 9 11 [] 320 240).
  set (m := mkMemory ∅ {[ 1 := ctx ]}).
  assert (contexts m !! 1 = Some ctx) as Hl by reflexivity.
  assert (1 ≠ 0) as Ho by lia.
  assert (frameHub ctx ≠ 0) as Hh by (simpl; lia).
  destruct (display_cb_delivers (mkJvm JNI_EDETACHED JNI_OK 5 9 8) 1 m ctx Hl Ho)
    as [Hsink _].
  destruct (Hsink Hh) as (t & Hrun & Hone & _).
  exists t. split; [exact Hrun|].
  apply Hone; [simpl; lia | reflexivity | simpl; lia].
Defined.

(** C10: on a live context with a sink, [display_cb] always returns and
    leaves the memory alone; when [GetEnv] reports the thread detached it
    calls [AttachCurrentThread] next; when that attach succeeds the last
    call it makes is the one [DetachCurrentThread], whatever the method id
    and whatever [NewDirectByteBuffer] returns; when the thread was attached
    already it neither attaches nor detaches; and when no environment can
    be had it stops after the failed [GetEnv] or [AttachCurrentThread],
    delivering nothing. *)
Theorem display_cb_attach_detach vm opaque m ctx :
  contexts m !! opaque = Some ctx → opaque ≠ 0 → frameHub ctx ≠ 0 →
  ∃ t, display_cb vm opaque m = Some (tt, m, t) ∧
    (r_GetEnv vm = JNI_EDETACHED →
     ∃ t', t = GetEnv JNI_EDETACHED ::
               AttachCurrentThread (r_AttachCurrentThread vm) :: t') ∧
    (r_GetEnv vm = JNI_EDETACHED → r_AttachCurrentThread vm = JNI_OK →
     ∃ t', t = GetEnv JNI_EDETACHED :: AttachCurrentThread JNI_OK ::
               t' ++ [DetachCurrentThread] ∧
           ¬ In DetachCurrentThread t' ∧
           ∀ st, ¬ In (AttachCurrentThread st) t') ∧
    (r_GetEnv vm = JNI_OK →
     ¬ In DetachCurrentThread t ∧ ∀ st, ¬ In (AttachCurrentThread st) t) ∧
    (env_reachable vm = false →
     (t = [GetEnv (r_GetEnv vm)] ∨
      t = [GetEnv (r_GetEnv vm); AttachCurrentThread (r_AttachCurrentThread vm)]) ∧
     ¬ In DetachCurrentThread t ∧ deliveries t = 0%nat).
Proof.
  intros Hl Ho Hh. rewrite (display_cb_unfold _ _ _ _ Hl Ho Hh).
  unfold env_reachable.
  rewrite getJNIEnv_run.
  destruct (Z.eqb_spec (r_GetEnv vm) JNI_OK) as [E1|E1];
    [|destruct (Z.eqb_spec (r_GetEnv vm) JNI_EDETACHED) as [E2|E2];
      [destruct (Z.eqb_spec (r_AttachCurrentThread vm) JNI_OK) as [E3|E3]|]];
    destruct (nonnull (onFrameMethod ctx));
    destruct (nonnull (r_NewDirectByteBuffer vm));
    cmd_eval; eexists; (split; [reflexivity|]);
    rewrite ?E1, ?E2, ?E3; unfold JNI_OK, JNI_EDETACHED in *;
    (split; [|split; [|split]]); intros; try discriminate; try congruence.
  all: try by eauto.
  all: try (split; [|intros st]; simpl; intuition discriminate).
  all: try (split; [by eauto|]; split; [|done]; simpl; intuition discriminate).
  - eexists [_; _; _]. split; [reflexivity|].
    split; [|intros st]; simpl; intuition discriminate.
  - eexists [_]. split; [reflexivity|].
    split; [|intros st]; simpl; intuition discriminate.
  - eexists []. split; [reflexivity|].
    split; [|intros st]; simpl; intuition discriminate.
  - eexists []. split; [reflexivity|].
    split; [|intros st]; simpl; intuition discriminate.
Qed.

Lemma display_cb_attach_detach_witness :
  ∃ t t',
    display_cb (mkJvm JNI_EDETACHED JNI_OK 5 9 0) 1
      (mkMemory ∅ {[ 1 := mkPlayerContext 7 9 11 [] 320 240 ]})
    = Some (tt, mkMemory ∅ {[ 1 := mkPlayerContext 7 9 11 [] 320 240 ]}, t) ∧
    t = GetEnv JNI_EDETACHED :: AttachCurrentThread JNI_OK ::
        t' ++ [DetachCurrentThread].
Proof.
  set (ctx := mkPlayerContext 7 9 11 [] 320 240).
  set (m := mkMemory ∅ {[ 1 := ctx ]}).
  assert (contexts m !! 1 = Some ctx) as Hl by reflexivity.
  assert (1 ≠ 0) as Ho by lia.
  assert (frameHub ctx ≠ 0) as Hh by (simpl; lia).
  destruct (display_cb_attach_detach (mkJvm JNI_EDETACHED JNI_OK 5 9 0) 1 m ctx Hl Ho Hh)
    as (t & Hrun & _ & Hdetach & _).
  destruct (Hdetach eq_refl eq_refl) as (t' & Ht & _).
  exists t, t'. split; [exact Hrun | exact Ht].
Defined.

(** ** Stepping through commands *)

Lemma run_ret_bind {A B} (a : A) (k : A → Cmd B) m : (mret a ≫= k) m = k a m.
Proof.
  unfold mbind, Cmd_bind, cmd_bind, mret, Cmd_ret, cmd_ret.
  by destruct (k a m) as [[[??]?]|].
Qed.

Lemma run_bind_assoc {A B C} (c : Cmd A) (k1 : A → Cmd B) (k2 : B → Cmd C) m :
  ((c ≫= k1) ≫= k2) m = (c ≫= (λ a, k1 a ≫= k2)) m.
Proof.
  unfold mbind, Cmd_bind, cmd_bind.
  destruct (c m) as [[[a m1] t1]|]; [|done].
  destruct (k1 a m1) as [[[b m2] t2]|]; [|done].
  destruct (k2 b m2) as [[[r m3] t3]|]; [|done].
  by rewrite app_assoc.
Qed.

Lemma run_load_ctx_bind {B} p c (k : PlayerContext → Cmd B) m :
  contexts m !! p = Some c → (load_ctx p ≫= k) m = k c m.
Proof.
  intros H. by rewrite (run_bind_Some _ _ _ _ _ _ (run_load_ctx _ _ _ H)), after_nil.
Qed.

Lemma run_modify_ctx_bind {B} p f c (k : unit → Cmd B) m :
  contexts m !! p = Some c →
  (modify_ctx p f ≫= k) m = k tt (set_contexts (<[p := f c]> (contexts m)) m).
Proof.
  intros H. by rewrite (run_bind_Some _ _ _ _ _ _ (run_modify_ctx _ _ _ _ H)), after_nil.
Qed.

Lemma run_delete_ctx_bind {B} p c (k : unit → Cmd B) m :
  contexts m !! p = Some c →
  (delete_ctx p ≫= k) m =
    after [Delete_PlayerContext p] (k tt (set_contexts (delete p (contexts m)) m)).
Proof. intros H. by rewrite (run_bind_Some _ _ _ _ _ _ (run_delete_ctx _ _ _ H)). Qed.

Lemma run_load_global_bind {B} h g (k : GlobalContext → Cmd B) m :
  globals m !! h = Some g → (load_global h ≫= k) m = k g m.
Proof.
  intros H. by rewrite (run_bind_Some _ _ _ _ _ _ (run_load_global _ _ _ H)), after_nil.
Qed.

Lemma run_modify_global_bind {B} h f g (k : unit → Cmd B) m :
  globals m !! h = Some g →
  (modify_global h f ≫= k) m = k tt (set_globals (<[h := f g]> (globals m)) m).
Proof.
  intros H. by rewrite (run_bind_Some _ _ _ _ _ _ (run_modify_global _ _ _ _ H)), after_nil.
Qed.

Lemma set_contexts_twice a b m : set_contexts a (set_contexts b m) = set_contexts a m.
Proof. reflexivity. Qed.

Lemma set_globals_twice a b m : set_globals a (set_globals b m) = set_globals a m.
Proof. reflexivity. Qed.

(** ** The guard on the registry mutex *)

(** A guarded body that starts on a live registry: the guard adds the
    unlock at the end and nothing else. *)
Lemma run_lock_guard {A} h (rest : Cmd A) m g :
  globals m !! h = Some g → lock_guard h rest m = guard_exit h (rest m).
Proof.
  intros Hg. unfold lock_guard, mutex_lock, mutex_unlock.
  rewrite run_bind_assoc, (run_load_global_bind _ _ _ _ Hg), run_ret_bind.
  unfold guard_exit, mbind, Cmd_bind, cmd_bind, load_global, mret, Cmd_ret, cmd_ret.
  destruct (rest m) as [[[a m1] t1]|]; [|done].
  destruct (globals m1 !! h); [|done].
  simpl. by rewrite app_nil_r.
Qed.


Lemma guard_exit_after {A} h t (r : option (A * Memory * list Event)) :
  guard_exit h (after t r) = after t (guard_exit h r).
Proof.
  destruct r as [[[a m] t']|]; [|done]. simpl. by destruct (globals m !! h).
Qed.

Lemma guard_exit_live {A} h (a : A) m t g :
  globals m !! h = Some g → guard_exit h (Some (a, m, t)) = Some (a, m, t).
Proof. intros H. simpl. by rewrite H. Qed.

(** ** Tearing one player down *)

Ltac cmd_steps :=
  repeat first [rewrite run_bind_assoc | rewrite run_emit_bind | rewrite run_ret_bind].

Ltac cmd_live := simpl; first [eassumption | apply lookup_insert_eq].

(** On a live, non-null context [destroyPlayerContext] returns, frees the
    context, touches nothing else and makes exactly the calls of
    [destroy_events]. *)
Lemma destroyPlayerContext_run p c m :
  p ≠ 0 → contexts m !! p = Some c →
  destroyPlayerContext p m =
    Some (tt, set_contexts (delete p (contexts m)) m, destroy_events p c).
Proof.
  intros Hp Hl. unfold destroyPlayerContext, destroy_events, when.
  rewrite (null_false _ Hp), (run_load_ctx_bind _ _ _ _ Hl).
  destruct (nonnull (mp c)) eqn:Emp; cmd_steps.
  - rewrite (run_modify_ctx_bind _ _ _ _ _ Hl).
    rewrite (run_load_ctx_bind _ (set_mp 0 c)) by cmd_live.
    simpl frameHub.
    destruct (nonnull (frameHub c)) eqn:Ehub; cmd_steps.
    + rewrite (run_modify_ctx_bind _ _ (set_mp 0 c)) by cmd_live.
      rewrite (run_delete_ctx _ (set_frameHub 0 (set_mp 0 c))) by cmd_live.
      simpl. by rewrite !delete_insert_eq.
    + rewrite (run_delete_ctx _ (set_mp 0 c)) by cmd_live.
      simpl. by rewrite !delete_insert_eq.
  - rewrite (run_load_ctx_bind _ _ _ _ Hl).
    destruct (nonnull (frameHub c)) eqn:Ehub; cmd_steps.
    + rewrite (run_modify_ctx_bind _ _ _ _ _ Hl).
      rewrite (run_delete_ctx _ (set_frameHub 0 c)) by cmd_live.
      simpl. by rewrite !delete_insert_eq.
    + by rewrite (run_delete_ctx _ _ _ Hl).
Qed.

(** [destroyPlayerContext(env, nullptr)] does nothing. *)
Lemma destroyPlayerContext_null m : destroyPlayerContext 0 m = Some (tt, m, []).
Proof. reflexivity. Qed.

Lemma destroy_events_stop_first p c :
  mp c ≠ 0 →
  destroy_events p c =
    libvlc_media_player_stop (mp c) :: libvlc_media_player_release (mp c) ::
    (if nonnull (frameHub c) then [DeleteGlobalRef (frameHub c)] else []) ++
    [Delete_PlayerContext p].
Proof. intros H. unfold destroy_events. by rewrite (nonnull_true _ H). Qed.

Lemma destroy_events_delete p c : In (Delete_PlayerContext p) (destroy_events p c).
Proof. unfold destroy_events. rewrite !in_app_iff. right. right. by left. Qed.

(** A trace that starts with the stop has it before every delete. *)
Lemma stop_precedes_delete_head player p t :
  stop_precedes_delete player p (libvlc_media_player_stop player :: t).
Proof.
  intros t1 t2 H. destruct t1 as [|e t1]; simpl in H.
  - discriminate.
  - injection H as <- _. by left.
Qed.

(** Events in front leave the order alone as long as they do not delete
    the context. *)
Lemma stop_precedes_delete_app player p t0 t :
  ¬ In (Delete_PlayerContext p) t0 →
  stop_precedes_delete player p t → stop_precedes_delete player p (t0 ++ t).
Proof.
  induction t0 as [|e t0 IH]; intros Hnot Ht; [done|].
  intros t1 t2 H. destruct t1 as [|e1 t1]; simpl in H.
  - injection H as He _. subst e. exfalso. apply Hnot. by left.
  - injection H as He H. subst e1. right. apply (IH (λ Hin, Hnot (or_intror Hin)) Ht t1 t2 H).
Qed.

(** Events behind leave the order alone as long as they do not delete the
    context. *)
Lemma stop_precedes_delete_app_r player p t t0 :
  ¬ In (Delete_PlayerContext p) t0 →
  stop_precedes_delete player p t → stop_precedes_delete player p (t ++ t0).
Proof.
  intros Hnot Ht t1 t2 H.
  apply app_eq_app in H as [k [[-> H]|[-> H]]].
  - destruct k as [|e k]; simpl in H.
    + exfalso. apply Hnot. rewrite <- H. by left.
    + injection H as He H. subst e. apply (Ht t1 k eq_refl).
  - exfalso. apply Hnot. rewrite H. apply in_app_iff. right. by left.
Qed.

Lemma stop_precedes_delete_destroy p c :
  mp c ≠ 0 → stop_precedes_delete (mp c) p (destroy_events p c).
Proof.
  intros H. rewrite (destroy_events_stop_first _ _ H).
  apply stop_precedes_delete_head.
Qed.

(** ** Releasing one stream *)

Lemma nativeReleaseMedia_absent h url m g :
  globals m !! h = Some g → h ≠ 0 → vlc g ≠ 0 → players g !! url = None →
  nativeReleaseMedia h url m = Some (false, m, []).
Proof.
  intros Hg Hh Hv Hu. unfold nativeReleaseMedia.
  rewrite (null_false _ Hh), (run_load_global_bind _ _ _ _ Hg), (null_false _ Hv).
  rewrite (run_lock_guard _ _ _ _ Hg), Hu.
  apply (guard_exit_live _ _ _ _ _ Hg).
Qed.

Lemma nativeReleaseMedia_present h url m g p c :
  globals m !! h = Some g → h ≠ 0 → vlc g ≠ 0 →
  players g !! url = Some p → p ≠ 0 → contexts m !! p = Some c →
  nativeReleaseMedia h url m =
    Some (true,
          mkMemory (<[h := set_players (delete url (players g)) g]> (globals m))
                   (delete p (contexts m)),
          destroy_events p c).
Proof.
  intros Hg Hh Hv Hu Hp Hc. unfold nativeReleaseMedia.
  rewrite (null_false _ Hh), (run_load_global_bind _ _ _ _ Hg), (null_false _ Hv).
  rewrite (run_lock_guard _ _ _ _ Hg), Hu.
  rewrite (run_bind_Some _ _ _ _ _ _ (destroyPlayerContext_run _ _ _ Hp Hc)).
  rewrite (run_modify_global_bind _ _ g) by done.
  rewrite run_ret, guard_exit_after.
  rewrite (guard_exit_live _ _ _ _ (set_players (delete url (players g)) g))
    by apply lookup_insert_eq.
  simpl. by rewrite app_nil_r.
Qed.

(** Releasing a stream keeps the registry invariant. *)
Lemma registry_ok_release m g url p :
  registry_ok m g → players g !! url = Some p →
  registry_ok (set_contexts (delete p (contexts m)) m)
              (set_players (delete url (players g)) g).
Proof.
  intros [Hlive Hinj] Hu. split; simpl.
  - intros url' p' [Hne Hu']%lookup_delete_Some.
    destruct (Hlive _ _ Hu') as (Hp' & c' & Hc' & Hmp). split; [done|].
    exists c'. split; [|done]. rewrite lookup_delete_ne; [done|].
    intros ->. by apply Hne, (Hinj url url' p').
  - intros u1 u2 q [_ H1]%lookup_delete_Some [_ H2]%lookup_delete_Some.
    by apply (Hinj u1 u2 q).
Qed.

(** C5: on a valid handle whose registry is well formed, releasing a
    registered stream stops its player, releases it, drops the sink
    reference, frees the context, erases the stream from the map and
    returns true, and a second release of the same stream then returns
    false and changes nothing; releasing a stream that is not registered
    returns false, calls nothing and leaves the memory as it was. *)
Theorem nativeReleaseMedia_spec h url m g :
  globals m !! h = Some g → h ≠ 0 → vlc g ≠ 0 → registry_ok m g →
  match players g !! url with
  | Some p =>
      ∃ c m',
        contexts m !! p = Some c ∧
        nativeReleaseMedia h url m =
          Some (true, m',
                libvlc_media_player_stop (mp c) ::
                libvlc_media_player_release (mp c) ::
                (if nonnull (frameHub c) then [DeleteGlobalRef (frameHub c)] else []) ++
                [Delete_PlayerContext p]) ∧
        contexts m' = delete p (contexts m) ∧
        contexts m' !! p = None ∧
        players_at m' h = delete url (players g) ∧
        players_at m' h !! url = None ∧
        nativeReleaseMedia h url m' = Some (false, m', [])
  | None => nativeReleaseMedia h url m = Some (false, m, [])
  end.
Proof.
  intros Hg Hh Hv [Hlive Hinj].
  destruct (players g !! url) as [p|] eqn:Hu.
  - destruct (Hlive _ _ Hu) as (Hp & c & Hc & Hmp).
    eexists c, _. split; [done|]. split.
    { rewrite (nativeReleaseMedia_present _ _ _ _ _ _ Hg Hh Hv Hu Hp Hc).
      by rewrite (destroy_events_stop_first _ _ Hmp). }
    simpl. split; [done|]. split; [apply lookup_delete_eq|].
    unfold players_at; simpl. rewrite lookup_insert_eq; simpl.
    split; [done|]. split; [apply lookup_delete_eq|].
    eapply nativeReleaseMedia_absent; simpl; [apply lookup_insert_eq|done|done|].
    simpl. apply lookup_delete_eq.
  - by apply (nativeReleaseMedia_absent _ _ _ g).
Qed.

(** ** Starting a stream *)

Lemma for_each_emit {A} (f : A → Event) (l : list A) m :
  for_each l (λ x, emit (f x)) m = Some (tt, m, map f l).
Proof.
  induction l as [|x l IH]; [done|].
  simpl for_each. by rewrite run_emit_bind, IH.
Qed.

(** The loop over the media options touches no memory. *)
Lemma for_each_option media (opts : list string) m :
  for_each opts (λ opt,
    emit (libvlc_media_add_option media opt);; emit (DeleteLocalRef_jstring opt)) m =
    Some (tt, m, option_events media opts).
Proof.
  induction opts as [|opt opts IH]; [done|].
  simpl for_each. by rewrite run_bind_assoc, !run_emit_bind, IH.
Qed.

(** [new] returns an address that is neither null nor in use. *)
Lemma fresh_address (cs : gmap Z PlayerContext) :
  fresh ({[0]} ∪ dom cs) ≠ 0 ∧ cs !! fresh ({[0]} ∪ dom cs) = None.
Proof.
  pose proof (is_fresh ({[0]} ∪ dom cs)) as H.
  split.
  - intros E. apply H. rewrite E. set_solver.
  - apply not_elem_of_dom. set_solver.
Qed.

Lemma run_new_ctx_bind {B} (k : Z → Cmd B) m :
  (new_ctx ≫= k) m =
    after [New_PlayerContext (fresh ({[0]} ∪ dom (contexts m)))]
      (k (fresh ({[0]} ∪ dom (contexts m)))
         (set_contexts (<[fresh ({[0]} ∪ dom (contexts m)) := PlayerContext_init]>
                          (contexts m)) m)).
Proof. reflexivity. Qed.

Lemma set_contexts_id m : set_contexts (contexts m) m = m.
Proof. by destruct m. Qed.

Ltac mem_norm :=
  rewrite ?set_contexts_twice, ?set_globals_twice;
  cbn [contexts globals set_contexts set_globals];
  rewrite ?insert_insert_eq.

Ltac cmd_run :=
  repeat first
    [ rewrite run_bind_assoc
    | rewrite run_emit_bind
    | rewrite run_ret_bind
    | erewrite run_modify_ctx_bind by cmd_live; mem_norm
    | erewrite run_load_ctx_bind by cmd_live
    | erewrite run_load_global_bind by cmd_live
    | erewrite run_modify_global_bind by cmd_live; mem_norm ].

(** Starting a stream that is not registered: the three ways the call can
    end, with the memory and the calls of each. *)
Lemma nativeStart_fresh vm engine h url hub width height args m g :
  globals m !! h = Some g → h ≠ 0 → vlc g ≠ 0 → players g !! url = None →
  nativeStart vm engine h url hub width height args m =
    let p := fresh ({[0]} ∪ dom (contexts m)) in
    if null (r_media_new_location engine) then
      Some (false, m,
            open_events vm engine (vlc g) url hub p ++ [Delete_PlayerContext p])
    else if negb (r_media_player_play engine =? 0) then
      Some (false, m,
            open_events vm engine (vlc g) url hub p ++ play_events engine args p ++
            destroy_events p (new_context vm engine width height))
    else
      Some (true,
            mkMemory (<[h := set_players (<[url := p]> (players g)) g]> (globals m))
                     (<[p := new_context vm engine width height]> (contexts m)),
            open_events vm engine (vlc g) url hub p ++ play_events engine args p).
Proof.
  intros Hg Hh Hv Hu. unfold nativeStart.
  rewrite (null_false _ Hh), (run_load_global_bind _ _ _ _ Hg), (null_false _ Hv).
  rewrite (run_lock_guard _ _ _ _ Hg), Hu, run_ret_bind, run_new_ctx_bind.
  cbv zeta.
  destruct (fresh_address (contexts m)) as [Hp0 Hpfree].
  set (p := fresh ({[0]} ∪ dom (contexts m))) in *.
  cmd_run.
  destruct (null (r_media_new_location engine)) eqn:Emedia.
  - erewrite run_delete_ctx_bind by cmd_live. mem_norm. cmd_run.
    rewrite (delete_insert_id _ _ _ Hpfree), set_contexts_id.
    rewrite run_ret, !after_Some, (guard_exit_live _ _ _ _ _ Hg). reflexivity.
  - rewrite run_bind.
    assert (∀ m0,
      match args with
      | Some opts =>
          for_each opts
            (λ opt, emit (libvlc_media_add_option (r_media_new_location engine) opt);;
                    emit (DeleteLocalRef_jstring opt))
      | None => mret ()
      end m0 =
      Some (tt, m0,
            match args with
            | Some opts => option_events (r_media_new_location engine) opts
            | None => []
            end)) as Hopts.
    { intros m0. destruct args; [apply for_each_option|done]. }
    rewrite Hopts. cmd_run.
    change (set_mp (r_media_player_new_from_media engine)
              (set_onFrameMethod (r_GetMethodID vm)
                 (set_frameHub (r_NewGlobalRef vm)
                    (set_actualHeight height
                       (set_actualWidth width PlayerContext_init)))))
      with (new_context vm engine width height).
    cbn [mp new_context].
    destruct (negb (r_media_player_play engine =? 0)) eqn:Eplay.
    + erewrite run_bind_Some;
        [|apply destroyPlayerContext_run; [exact Hp0 | cmd_live]].
      mem_norm. rewrite (delete_insert_id _ _ _ Hpfree), set_contexts_id.
      rewrite run_ret, !after_Some, (guard_exit_live _ _ _ _ _ Hg).
      unfold open_events, play_events.
      rewrite ?app_nil_r. simpl. by rewrite <- ?app_assoc.
    + erewrite run_modify_global_bind by cmd_live. mem_norm.
      rewrite run_ret, !after_Some.
      erewrite guard_exit_live by apply lookup_insert_eq.
      unfold open_events, play_events.
      rewrite ?app_nil_r. simpl. by rewrite <- ?app_assoc.
Qed.

(** Starting a stream that is registered already is tearing the old
    context down, erasing the stream from the map, and then starting the
    stream as if it had never been registered. *)
Lemma nativeStart_restart vm engine h url hub width height args m g p c :
  globals m !! h = Some g → h ≠ 0 → vlc g ≠ 0 →
  players g !! url = Some p → p ≠ 0 → contexts m !! p = Some c →
  nativeStart vm engine h url hub width height args m =
    after (destroy_events p c)
      (nativeStart vm engine h url hub width height args
         (mkMemory (<[h := set_players (delete url (players g)) g]> (globals m))
                   (delete p (contexts m)))).
Proof.
  intros Hg Hh Hv Hu Hp Hc.
  set (m1 := mkMemory _ _).
  assert (globals m1 !! h = Some (set_players (delete url (players g)) g)) as Hg1
    by apply lookup_insert_eq.
  unfold nativeStart.
  rewrite (null_false _ Hh), (run_load_global_bind _ _ _ _ Hg), (null_false _ Hv), Hu.
  rewrite (run_load_global_bind _ _ _ _ Hg1). cbn [vlc set_players players].
  rewrite (null_false _ Hv), lookup_delete_eq.
  rewrite (run_lock_guard _ _ _ _ Hg), (run_lock_guard _ _ _ _ Hg1), run_ret_bind.
  rewrite run_bind_assoc.
  rewrite (run_bind_Some _ _ _ _ _ _ (destroyPlayerContext_run _ _ _ Hp Hc)).
  rewrite (run_modify_global_bind _ _ g) by done.
  by rewrite guard_exit_after.
Qed.

(** C2: on a valid handle whose registry is well formed, starting a stream
    that is registered already first stops and releases the old player,
    drops the old sink reference and frees the old context; only then is
    the new context allocated and, later still, playback begun. The call
    returns true exactly when the media could be created and playback
    began, and then the map has the same number of streams as before, with
    this stream bound to the new context, which holds the new sink
    reference, the new player and the requested dimensions. *)
Theorem nativeStart_replaces vm engine h url hub width height args m g p :
  globals m !! h = Some g → h ≠ 0 → vlc g ≠ 0 → registry_ok m g →
  players g !! url = Some p →
  ∃ c b m' t_new,
    let p' := fresh ({[0]} ∪ dom (delete p (contexts m))) in
    contexts m !! p = Some c ∧
    nativeStart vm engine h url hub width height args m =
      Some (b, m',
            (libvlc_media_player_stop (mp c) ::
             libvlc_media_player_release (mp c) ::
             (if nonnull (frameHub c) then [DeleteGlobalRef (frameHub c)] else []) ++
             [Delete_PlayerContext p]) ++ t_new) ∧
    (∃ t_rest, t_new = open_events vm engine (vlc g) url hub p' ++ t_rest) ∧
    (b = true ↔ r_media_new_location engine ≠ 0 ∧ r_media_player_play engine = 0) ∧
    (b = true →
     t_new = open_events vm engine (vlc g) url hub p' ++ play_events engine args p' ∧
     players_at m' h = <[url := p']> (players g) ∧
     players_at m' h !! url = Some p' ∧
     size (players_at m' h) = size (players g) ∧
     contexts m' !! p' = Some (new_context vm engine width height)).
Proof.
  intros Hg Hh Hv [Hlive Hinj] Hu.
  destruct (Hlive _ _ Hu) as (Hp & c & Hc & Hmp).
  rewrite (nativeStart_restart _ _ _ _ _ _ _ _ _ _ _ _ Hg Hh Hv Hu Hp Hc).
  rewrite (destroy_events_stop_first _ _ Hmp).
  set (g1 := set_players (delete url (players g)) g).
  set (m1 := mkMemory (<[h := g1]> (globals m)) (delete p (contexts m))).
  assert (globals m1 !! h = Some g1) as Hg1 by apply lookup_insert_eq.
  assert (players g1 !! url = None) as Hu1 by apply lookup_delete_eq.
  rewrite (nativeStart_fresh _ _ _ _ _ _ _ _ _ _ Hg1 Hh Hv Hu1).
  cbv zeta. cbn [contexts m1 vlc g1 set_players].
  set (p' := fresh ({[0]} ∪ dom (delete p (contexts m)))).
  unfold null.
  destruct (Z.eqb_spec (r_media_new_location engine) 0) as [Em|Em];
    [|destruct (Z.eqb_spec (r_media_player_play engine) 0) as [Ep|Ep]];
    cbn [negb after]; eexists c, _, _, _; (split; [exact Hc|]);
    (split; [reflexivity|]); (split; [by eauto|]).
  - split; [|done]. split; [done|]. by intros [? _].
  - split; [split; done|]. intros _. split; [done|].
    unfold players_at. cbn [globals]. rewrite lookup_insert_eq.
    cbn [players set_players g1]. rewrite insert_delete_eq.
    split; [done|]. split; [apply lookup_insert_eq|].
    split; [|apply lookup_insert_eq].
    apply map_size_insert_Some. by rewrite Hu.
  - split; [|done]. split; [done|]. by intros [_ ?].
Qed.

(** When the media cannot be created for a stream that is not registered,
    the call returns false and leaves the memory as it was, but the global
    reference taken on the hub is not given back. *)
Lemma nativeStart_media_failure vm engine h url hub width height args m g :
  globals m !! h = Some g → h ≠ 0 → vlc g ≠ 0 → players g !! url = None →
  r_media_new_location engine = 0 →
  ∃ t, nativeStart vm engine h url hub width height args m = Some (false, m, t) ∧
       In (NewGlobalRef hub (r_NewGlobalRef vm)) t ∧
       ¬ In (DeleteGlobalRef (r_NewGlobalRef vm)) t ∧
       In (Delete_PlayerContext (fresh ({[0]} ∪ dom (contexts m)))) t.
Proof.
  intros Hg Hh Hv Hu Em.
  rewrite (nativeStart_fresh _ _ _ _ _ _ _ _ _ _ Hg Hh Hv Hu). cbv zeta.
  unfold null. rewrite Em. simpl. eexists. split; [reflexivity|].
  simpl. intuition discriminate.
Qed.

(** When playback fails to begin, the sibling path gives everything back:
    the player is stopped and released, the global reference deleted and
    the context freed. *)
Lemma nativeStart_play_failure vm engine h url hub width height args m g :
  globals m !! h = Some g → h ≠ 0 → vlc g ≠ 0 → players g !! url = None →
  r_media_new_location engine ≠ 0 → r_media_player_play engine ≠ 0 →
  r_NewGlobalRef vm ≠ 0 → r_media_player_new_from_media engine ≠ 0 →
  ∃ t, nativeStart vm engine h url hub width height args m = Some (false, m, t) ∧
       In (libvlc_media_player_stop (r_media_player_new_from_media engine)) t ∧
       In (libvlc_media_player_release (r_media_player_new_from_media engine)) t ∧
       In (DeleteGlobalRef (r_NewGlobalRef vm)) t ∧
       In (Delete_PlayerContext (fresh ({[0]} ∪ dom (contexts m)))) t.
Proof.
  intros Hg Hh Hv Hu Em Ep Href Hmp.
  rewrite (nativeStart_fresh _ _ _ _ _ _ _ _ _ _ Hg Hh Hv Hu). cbv zeta.
  rewrite (null_false _ Em).
  destruct (Z.eqb_spec (r_media_player_play engine) 0) as [|_]; [done|]. simpl negb.
  eexists. split; [reflexivity|].
  unfold destroy_events, new_context. cbn [mp frameHub].
  rewrite (nonnull_true _ Href), (nonnull_true _ Hmp).
  rewrite !in_app_iff. simpl. naive_solver.
Qed.

(** C3, at a start on an empty registry where
    [libvlc_media_new_location] returns [NULL]: the call returns false and
    registers nothing, the new context is freed, but the global reference
    5 that [NewGlobalRef] handed out for the hub is never passed to
    [DeleteGlobalRef]. *)
Theorem nativeStart_media_failure_keeps_sink_reference :
  nativeStart (mkJvm JNI_OK JNI_OK 5 6 8) no_media_engine 50 demo_url 77 0 0 None
    empty_memory =
    Some (false, empty_memory,
          [New_PlayerContext 1; NewGlobalRef 77 5; GetObjectClass 77;
           GetMethodID 77 "onRawFrame" "(Ljava/nio/ByteBuffer;II)V" 6;
           libvlc_media_new_location 100 demo_url 0;
           Delete_PlayerContext 1]) ∧
  ¬ In (DeleteGlobalRef 5)
       [New_PlayerContext 1; NewGlobalRef 77 5; GetObjectClass 77;
        GetMethodID 77 "onRawFrame" "(Ljava/nio/ByteBuffer;II)V" 6;
        libvlc_media_new_location 100 demo_url 0;
        Delete_PlayerContext 1].
Proof.
  split.
  - vm_compute. reflexivity.
  - simpl. intuition discriminate.
Qed.

(** C4: on a valid handle whose registry is well formed, a start on a
    registered stream that fails, because the media cannot be created or
    because playback does not begin, returns false after the old context
    has been torn down and freed and the stream erased from the map: the
    map then has no entry for the stream. *)
Theorem nativeStart_failed_restart vm engine h url hub width height args m g p :
  globals m !! h = Some g → h ≠ 0 → vlc g ≠ 0 → registry_ok m g →
  players g !! url = Some p →
  r_media_new_location engine = 0 ∨ r_media_player_play engine ≠ 0 →
  ∃ c m' t_new,
    contexts m !! p = Some c ∧
    nativeStart vm engine h url hub width height args m =
      Some (false, m',
            (libvlc_media_player_stop (mp c) ::
             libvlc_media_player_release (mp c) ::
             (if nonnull (frameHub c) then [DeleteGlobalRef (frameHub c)] else []) ++
             [Delete_PlayerContext p]) ++ t_new) ∧
    players_at m' h = delete url (players g) ∧
    players_at m' h !! url = None ∧
    contexts m' = delete p (contexts m) ∧
    contexts m' !! p = None.
Proof.
  intros Hg Hh Hv [Hlive Hinj] Hu Hfail.
  destruct (Hlive _ _ Hu) as (Hp & c & Hc & Hmp).
  rewrite (nativeStart_restart _ _ _ _ _ _ _ _ _ _ _ _ Hg Hh Hv Hu Hp Hc).
  rewrite (destroy_events_stop_first _ _ Hmp).
  set (g1 := set_players (delete url (players g)) g).
  set (m1 := mkMemory (<[h := g1]> (globals m)) (delete p (contexts m))).
  assert (globals m1 !! h = Some g1) as Hg1 by apply lookup_insert_eq.
  assert (players g1 !! url = None) as Hu1 by apply lookup_delete_eq.
  rewrite (nativeStart_fresh _ _ _ _ _ _ _ _ _ _ Hg1 Hh Hv Hu1).
  cbv zeta. unfold null.
  assert (∀ t, ∃ c0 m' t_new,
    contexts m !! p = Some c0 ∧
    after (libvlc_media_player_stop (mp c) :: libvlc_media_player_release (mp c) ::
           (if nonnull (frameHub c) then [DeleteGlobalRef (frameHub c)] else []) ++
           [Delete_PlayerContext p]) (Some (false, m1, t)) =
      Some (false, m',
            (libvlc_media_player_stop (mp c0) :: libvlc_media_player_release (mp c0) ::
             (if nonnull (frameHub c0) then [DeleteGlobalRef (frameHub c0)] else []) ++
             [Delete_PlayerContext p]) ++ t_new) ∧
    players_at m' h = delete url (players g) ∧
    players_at m' h !! url = None ∧
    contexts m' = delete p (contexts m) ∧
    contexts m' !! p = None) as Hdone.
  { intros t. exists c, m1, t. split; [done|]. split; [done|].
    unfold players_at. rewrite Hg1. cbn [players g1 set_players contexts m1].
    split; [done|]. split; [apply lookup_delete_eq|].
    split; [done|]. apply lookup_delete_eq. }
  destruct (Z.eqb_spec (r_media_new_location engine) 0) as [Em|Em]; [apply Hdone|].
  destruct (Z.eqb_spec (r_media_player_play engine) 0) as [Ep|Ep]; [|apply Hdone].
  by destruct Hfail.
Qed.

(** Starting a stream keeps the registry invariant, provided LibVLC handed
    out a player. *)
Lemma registry_ok_start m g url p c :
  registry_ok m g → players g !! url = None → contexts m !! p = None →
  p ≠ 0 → mp c ≠ 0 →
  registry_ok (set_contexts (<[p := c]> (contexts m)) m)
              (set_players (<[url := p]> (players g)) g).
Proof.
  intros [Hlive Hinj] Hu Hfree Hp Hmp. split; simpl.
  - intros url' p' [[<- <-]|[Hne Hu']]%lookup_insert_Some.
    + split; [done|]. exists c. by rewrite lookup_insert_eq.
    + destruct (Hlive _ _ Hu') as (Hp' & c' & Hc' & Hmp'). split; [done|].
      exists c'. split; [|done]. rewrite lookup_insert_ne; [done|]. congruence.
  - intros u1 u2 q [[<- <-]|[Hne1 H1]]%lookup_insert_Some
                   [[<- E]|[Hne2 H2]]%lookup_insert_Some; try done.
    + destruct (Hlive _ _ H2) as (_ & c' & Hc' & _). congruence.
    + subst q. destruct (Hlive _ _ H1) as (_ & c' & Hc' & _). congruence.
    + by apply (Hinj u1 u2 q).
Qed.

(** ** Releasing everything *)





Lemma destroy_events_delete_inv p c q :
  In (Delete_PlayerContext q) (destroy_events p c) → q = p.
Proof.
  unfold destroy_events.
  destruct (nonnull (mp c)), (nonnull (frameHub c)); simpl;
    intuition (try discriminate; congruence).
Qed.

Lemma destroy_all_events_delete_inv l cs q :
  In (Delete_PlayerContext q) (destroy_all_events l cs) → q ∈ l.*2.
Proof.
  revert cs. induction l as [|e l IH]; intros cs; simpl; [done|].
  rewrite in_app_iff. set (cs0 := delete e.2 cs). intros [H|H].
  - destruct (cs !! e.2); [|done]. apply destroy_events_delete_inv in H.
    rewrite H. by left.
  - right. by apply (IH cs0).
Qed.

(** Every entry torn down by the loop gets its stop first and its delete
    afterwards. *)
Lemma destroy_all_events_order l cs url p c :
  NoDup (l.*2) → (url, p) ∈ l → cs !! p = Some c → mp c ≠ 0 →
  In (libvlc_media_player_stop (mp c)) (destroy_all_events l cs) ∧
  In (libvlc_media_player_release (mp c)) (destroy_all_events l cs) ∧
  In (Delete_PlayerContext p) (destroy_all_events l cs) ∧
  stop_precedes_delete (mp c) p (destroy_all_events l cs).
Proof.
  revert cs. induction l as [|e l IH]; intros cs Hnd Hin Hc Hmp.
  { by apply elem_of_nil in Hin. }
  rewrite fmap_cons in Hnd. apply NoDup_cons in Hnd as [Hnotin Hnd].
  apply elem_of_cons in Hin as [<-|Hin]; simpl.
  - rewrite Hc. rewrite !in_app_iff. split; [|split; [|split]].
    + left. rewrite (destroy_events_stop_first _ _ Hmp). by left.
    + left. rewrite (destroy_events_stop_first _ _ Hmp). right. by left.
    + left. apply destroy_events_delete.
    + apply stop_precedes_delete_app_r; [|by apply stop_precedes_delete_destroy].
      intros H%destroy_all_events_delete_inv. done.
  - assert (e.2 ≠ p) as Hne.
    { intros E. apply Hnotin. rewrite E.
      apply (list_elem_of_fmap_2 snd l (url, p)) in Hin. done. }
    assert (delete e.2 cs !! p = Some c) as Hc' by (by rewrite lookup_delete_ne).
    destruct (IH _ Hnd Hin Hc' Hmp) as (H1 & H2 & H3 & H4).
    rewrite !in_app_iff. split; [by right|]. split; [by right|]. split; [by right|].
    apply stop_precedes_delete_app; [|done].
    destruct (cs !! e.2) as [ce|]; [|by intros []].
    intros H%destroy_events_delete_inv. congruence.
Qed.

Lemma for_each_destroy l m :
  NoDup (l.*2) →
  (∀ e, e ∈ l → e.2 ≠ 0 ∧ is_Some (contexts m !! e.2)) →
  for_each l (λ e, destroyPlayerContext e.2) m =
    Some (tt, set_contexts (contexts_after_destroy l (contexts m)) m,
          destroy_all_events l (contexts m)).
Proof.
  revert m. induction l as [|e l IH]; intros m Hnd Hlive.
  { simpl. by rewrite set_contexts_id. }
  rewrite fmap_cons in Hnd. apply NoDup_cons in Hnd as [Hnotin Hnd].
  destruct (Hlive e) as [Hp [c Hc]]; [by left|].
  simpl for_each.
  rewrite (run_bind_Some _ _ _ _ _ _ (destroyPlayerContext_run _ _ _ Hp Hc)).
  rewrite IH; [|done|].
  - simpl. by rewrite Hc.
  - intros e' He'. destruct (Hlive e') as [Hp' Hc']; [by right|].
    split; [done|]. simpl. rewrite lookup_delete_ne; [done|].
    intros E. apply Hnotin. rewrite E.
    by apply (list_elem_of_fmap_2 snd l e').
Qed.

Lemma in_key_order_elem (pl : gmap string Z) url p :
  (url, p) ∈ in_key_order pl ↔ pl !! url = Some p.
Proof.
  unfold in_key_order. rewrite merge_sort_Permutation.
  apply elem_of_map_to_list.
Qed.

Lemma in_key_order_NoDup m g : registry_ok m g → NoDup ((in_key_order (players g)).*2).
Proof.
  intros [_ Hinj]. apply NoDup_fmap_2_strong.
  - intros [u1 p1] [u2 p2] H1%in_key_order_elem H2%in_key_order_elem E.
    simpl in E. subst p2. by rewrite (Hinj u1 u2 p1).
  - unfold in_key_order. rewrite merge_sort_Permutation. apply NoDup_map_to_list.
Qed.

(** The loop visits the streams in the order of their URLs. *)
Lemma in_key_order_sorted (pl : gmap string Z) : Sorted key_le (in_key_order pl).
Proof.
  apply Sorted_merge_sort.
  intros a b. unfold key_le. apply String.leb_total.
Qed.

Lemma release_all_streams_run h m g :
  globals m !! h = Some g → registry_ok m g →
  release_all_streams h m =
    Some (tt,
          mkMemory (<[h := set_players ∅ g]> (globals m))
                   (contexts_after_destroy (in_key_order (players g)) (contexts m)),
          destroy_all_events (in_key_order (players g)) (contexts m)).
Proof.
  intros Hg Hok. unfold release_all_streams.
  rewrite (run_load_global_bind _ _ _ _ Hg).
  assert (∀ e, e ∈ in_key_order (players g) →
               e.2 ≠ 0 ∧ is_Some (contexts m !! e.2)) as Hlive.
  { intros [url p] Hin%in_key_order_elem. destruct Hok as [Hlive _].
    destruct (Hlive _ _ Hin) as (Hp & c & Hc & _). simpl. eauto. }
  rewrite (run_bind_Some _ _ _ _ _ _
             (for_each_destroy _ m (in_key_order_NoDup _ _ Hok) Hlive)).
  rewrite (run_modify_global _ _ g) by done. simpl. by rewrite app_nil_r.
Qed.

Lemma release_instance_run h m g :
  globals m !! h = Some g → vlc g ≠ 0 →
  release_instance h m =
    Some (tt, set_globals (delete h (globals m)) m,
          [libvlc_release (vlc g); Delete_GlobalContext h]).
Proof.
  intros Hg Hv. unfold release_instance, when.
  rewrite (run_load_global_bind _ _ _ _ Hg), (nonnull_true _ Hv).
  cmd_run.
  erewrite run_delete_global by cmd_live. simpl.
  by rewrite delete_insert_eq.
Qed.

(** [nativeReleaseVLC] on a null handle does nothing. *)
Lemma nativeReleaseVLC_null m : nativeReleaseVLC 0 m = Some (tt, m, []).
Proof. reflexivity. Qed.

(** The guarded body of [nativeReleaseVLC] on a well-formed registry: the
    calls it makes and the memory it leaves at [delete globalCtx]. *)
Lemma release_body_run h m g :
  globals m !! h = Some g → vlc g ≠ 0 → registry_ok m g →
  (release_all_streams h;; release_instance h) m =
    Some (tt,
          mkMemory (delete h (globals m))
                   (contexts_after_destroy (in_key_order (players g)) (contexts m)),
          destroy_all_events (in_key_order (players g)) (contexts m) ++
          [libvlc_release (vlc g); Delete_GlobalContext h]).
Proof.
  intros Hg Hv Hok.
  rewrite (run_bind_Some _ _ _ _ _ _ (release_all_streams_run _ _ _ Hg Hok)).
  erewrite release_instance_run; [|apply lookup_insert_eq|done].
  simpl. by rewrite delete_insert_eq.
Qed.



(** C6, on the registry at handle 50 with its one stream. The loop and
    [players.clear()] stop and release the player, drop the sink reference
    and free the context, and leave the map empty with the instance still
    held; the rest of the guarded body releases the instance and deletes
    the registry, so that no context and no registry is left. The unlock
    that ends the call is then made on the deleted registry: the call as a
    whole has no defined result. *)
Theorem nativeReleaseVLC_unlocks_deleted_registry :
  release_all_streams 50 demo_memory =
    Some (tt, mkMemory {[ 50 := mkGlobalContext 100 ∅ ]} ∅,
          [libvlc_media_player_stop 300; libvlc_media_player_release 300;
           DeleteGlobalRef 5; Delete_PlayerContext 1]) ∧
  (release_all_streams 50;; release_instance 50) demo_memory =
    Some (tt, mkMemory ∅ ∅,
          [libvlc_media_player_stop 300; libvlc_media_player_release 300;
           DeleteGlobalRef 5; Delete_PlayerContext 1;
           libvlc_release 100; Delete_GlobalContext 50]) ∧
  mutex_unlock 50 (mkMemory ∅ ∅) = None ∧
  nativeReleaseVLC 50 demo_memory = None.
Proof.
  split; [by vm_compute|]. split; [by vm_compute|]. split; [by vm_compute|].
  by vm_compute.
Qed.

(** ** Stop before destroy *)

(** A start on a well-formed registry always returns. *)
Lemma nativeStart_fresh_returns vm engine h url hub width height args m g :
  globals m !! h = Some g → h ≠ 0 → vlc g ≠ 0 → players g !! url = None →
  ∃ b m' t, nativeStart vm engine h url hub width height args m = Some (b, m', t).
Proof.
  intros Hg Hh Hv Hu.
  rewrite (nativeStart_fresh _ _ _ _ _ _ _ _ _ _ Hg Hh Hv Hu). cbv zeta.
  destruct (null _); [by eauto|]. destruct (negb _); by eauto.
Qed.

(** What a teardown calls, one by one. *)
Lemma destroy_events_In e q c :
  In e (destroy_events q c) →
  e = libvlc_media_player_stop (mp c) ∨ e = libvlc_media_player_release (mp c) ∨
  (e = DeleteGlobalRef (frameHub c) ∧ frameHub c ≠ 0) ∨ e = Delete_PlayerContext q.
Proof.
  unfold destroy_events.
  destruct (nonnull (mp c)), (nonnull (frameHub c)) eqn:Ehub; simpl;
    try apply nonnull_spec in Ehub; intuition (subst; auto).
Qed.

(** Every call of the loop belongs to the teardown of one of its entries. *)
Lemma destroy_all_events_In l cs e :
  In e (destroy_all_events l cs) →
  ∃ u q c, (u, q) ∈ l ∧ cs !! q = Some c ∧ In e (destroy_events q c).
Proof.
  revert cs. induction l as [|[u q] l IH]; intros cs; simpl; [done|].
  rewrite in_app_iff. intros [H|H].
  - destruct (cs !! q) as [c|] eqn:Hc; [|done].
    exists u, q, c. split; [by left|done].
  - destruct (IH _ H) as (u' & q' & c' & Hin & Hc'%lookup_delete_Some & He).
    exists u', q', c'. split; [by right|]. by destruct Hc'.
Qed.

(** The teardown of a registered entry is one block of the calls of the
    loop, after the teardowns of the entries before it. *)
Lemma destroy_all_events_block l cs url p c :
  NoDup (l.*2) → (url, p) ∈ l → cs !! p = Some c →
  ∃ l1 l2 tB, l = l1 ++ (url, p) :: l2 ∧
    destroy_all_events l cs = destroy_all_events l1 cs ++ destroy_events p c ++ tB.
Proof.
  revert cs. induction l as [|e l IH]; intros cs Hnd Hin Hc.
  { by apply elem_of_nil in Hin. }
  rewrite fmap_cons in Hnd. apply NoDup_cons in Hnd as [Hnotin Hnd].
  apply elem_of_cons in Hin as [<-|Hin].
  - exists [], l, (destroy_all_events l (delete p cs)). split; [done|].
    simpl. by rewrite Hc.
  - assert (e.2 ≠ p) as Hne.
    { intros E. apply Hnotin. rewrite E.
      apply (list_elem_of_fmap_2 snd l (url, p)) in Hin. done. }
    assert (delete e.2 cs !! p = Some c) as Hc' by (by rewrite lookup_delete_ne).
    destruct (IH _ Hnd Hin Hc') as (l1 & l2 & tB & -> & Heq).
    exists (e :: l1), l2, tB. split; [done|].
    simpl. rewrite Heq. by rewrite <- app_assoc.
Qed.

(** A trace in which the stop of [player] comes before anything that
    tears the session down. *)
Lemma stop_precedes_teardown_intro player hub p tA rest :
  (∀ e, In e tA → e ≠ libvlc_media_player_release player ∧
                  e ≠ DeleteGlobalRef hub ∧ e ≠ Delete_PlayerContext p) →
  stop_precedes_teardown player hub p (tA ++ libvlc_media_player_stop player :: rest).
Proof.
  intros Hfree t1 e t2 H He.
  apply app_eq_app in H as [k [[-> H]|[-> H]]].
  - destruct k as [|e' k]; simpl in H.
    + injection H as -> _. exfalso. by destruct He as [?|[?|?]].
    + injection H as <- _. exfalso.
      destruct (Hfree e) as (? & ? & ?); [|by destruct He as [?|[?|?]]].
      apply in_app_iff. right. by left.
  - destruct k as [|e' k]; simpl in H.
    + injection H as <- _. exfalso. by destruct He as [?|[?|?]].
    + injection H as <- _. apply in_app_iff. right. by left.
Qed.

Lemma torn_down_in_order_head p c t :
  mp c ≠ 0 → torn_down_in_order p c (destroy_events p c ++ t).
Proof.
  intros Hmp. exists [], t. split; [|by intros []].
  by rewrite (destroy_events_stop_first _ _ Hmp).
Qed.

Lemma stop_precedes_teardown_head p c t :
  mp c ≠ 0 →
  stop_precedes_teardown (mp c) (frameHub c) p (destroy_events p c ++ t).
Proof.
  intros Hmp. rewrite (destroy_events_stop_first _ _ Hmp).
  apply (stop_precedes_teardown_intro _ _ _ []). by intros e [].
Qed.

(** The calls of the guarded body of [nativeReleaseVLC], seen from one
    registered stream. *)
Lemma release_body_order h m g url p c :
  globals m !! h = Some g → vlc g ≠ 0 → registry_ok m g →
  players g !! url = Some p → contexts m !! p = Some c → mp c ≠ 0 →
  ∃ m' t, (release_all_streams h;; release_instance h) m = Some (tt, m', t) ∧
          In (Delete_PlayerContext p) t ∧
          stop_precedes_delete (mp c) p t ∧
          torn_down_in_order p c t ∧
          (handles_unshared m g p c → stop_precedes_teardown (mp c) (frameHub c) p t).
Proof.
  intros Hg Hv Hok Hu Hc Hmp.
  rewrite (release_body_run _ _ _ Hg Hv Hok).
  set (l := in_key_order (players g)).
  assert (NoDup (l.*2)) as Hnd by by apply (in_key_order_NoDup m g).
  assert ((url, p) ∈ l) as Hin by by apply in_key_order_elem.
  destruct (destroy_all_events_order l (contexts m) url p c)
    as (_ & _ & Hd & Hord); [done..|].
  destruct (destroy_all_events_block l (contexts m) url p c)
    as (l1 & l2 & tB & Hl & Heq); [done..|].
  assert (∀ u q, (u, q) ∈ l1 → q ≠ p ∧ players g !! u = Some q) as Hbefore.
  { intros u q Hq. split.
    - intros ->. rewrite Hl, fmap_app, fmap_cons in Hnd.
      apply NoDup_app in Hnd as (_ & Hdis & _).
      apply (Hdis p); [by apply (list_elem_of_fmap_2 snd l1 (u, p))|by left].
    - apply in_key_order_elem. fold l. rewrite Hl. apply elem_of_app. by left. }
  eexists _, _. split; [reflexivity|]. split; [|split; [|split]].
  - apply in_app_iff. by left.
  - apply stop_precedes_delete_app_r; [|done]. simpl. intuition discriminate.
  - exists (destroy_all_events l1 (contexts m)),
           (tB ++ [libvlc_release (vlc g); Delete_GlobalContext h]).
    split.
    + rewrite Heq, <- (destroy_events_stop_first _ _ Hmp). by rewrite <- !app_assoc.
    + intros (u & q & c' & Hq & _ & He)%destroy_all_events_In.
      apply destroy_events_delete_inv in He. destruct (Hbefore _ _ Hq). congruence.
  - intros Hun. rewrite Heq, (destroy_events_stop_first _ _ Hmp), <- !app_assoc.
    apply stop_precedes_teardown_intro.
    intros e (u & q & c' & Hq & Hc' & He)%destroy_all_events_In.
    destruct (Hbefore _ _ Hq) as [Hne Hreg].
    destruct (Hun _ _ _ Hreg Hne Hc') as [Hmp' Hhub'].
    apply destroy_events_In in He as [-> | [-> | [[-> Hnz] | ->]]].
    + done.
    + split; [congruence|done].
    + split; [done|]. split; [|done]. destruct Hhub'; congruence.
    + split; [done|]. split; [done|]. congruence.
Qed.

(** C9: for a stream registered in a well-formed registry, with its
    context at [p], its player [mp c] and its sink reference [frameHub c]:
    in [destroyPlayerContext], in [nativeReleaseMedia] of that stream, in
    every [nativeStart] on that stream (whether it then succeeds or fails)
    and in the guarded body of [nativeReleaseVLC] (all the calls that
    function makes), the calls are made and return, the context at [p] is
    deleted, and the session is torn down in one block that begins with
    [libvlc_media_player_stop] on its player, goes on with the release of
    the player and of the sink reference and ends with the delete of the
    context; no delete of that context comes before the block. In the
    first three, every release of the player, every release of the sink
    reference and every delete of the context comes after the stop. In
    [nativeReleaseVLC], where other sessions are torn down first, the
    same holds as long as no other registered session holds the same
    player or the same reference. *)
Theorem stop_precedes_destroy h url m g p c :
  globals m !! h = Some g → h ≠ 0 → vlc g ≠ 0 → registry_ok m g →
  players g !! url = Some p → contexts m !! p = Some c →
  (∃ m' t, destroyPlayerContext p m = Some (tt, m', t) ∧
           In (Delete_PlayerContext p) t ∧ stop_precedes_delete (mp c) p t ∧
           torn_down_in_order p c t ∧
           stop_precedes_teardown (mp c) (frameHub c) p t) ∧
  (∃ m' t, nativeReleaseMedia h url m = Some (true, m', t) ∧
           In (Delete_PlayerContext p) t ∧ stop_precedes_delete (mp c) p t ∧
           torn_down_in_order p c t ∧
           stop_precedes_teardown (mp c) (frameHub c) p t) ∧
  (∀ vm engine hub width height args,
     ∃ b m' t, nativeStart vm engine h url hub width height args m = Some (b, m', t) ∧
               In (Delete_PlayerContext p) t ∧ stop_precedes_delete (mp c) p t ∧
               torn_down_in_order p c t ∧
               stop_precedes_teardown (mp c) (frameHub c) p t) ∧
  (∃ m' t, (release_all_streams h;; release_instance h) m = Some (tt, m', t) ∧
           In (Delete_PlayerContext p) t ∧ stop_precedes_delete (mp c) p t ∧
           torn_down_in_order p c t ∧
           (handles_unshared m g p c →
            stop_precedes_teardown (mp c) (frameHub c) p t)).
Proof.
  intros Hg Hh Hv Hok Hu Hc.
  destruct (Hok) as [Hlive Hinj].
  destruct (Hlive _ _ Hu) as (Hp & c' & Hc' & Hmp).
  assert (c' = c) as -> by congruence.
  pose proof (torn_down_in_order_head p c [] Hmp) as Hblock.
  pose proof (stop_precedes_teardown_head p c [] Hmp) as Hstrong.
  rewrite app_nil_r in Hblock, Hstrong.
  split; [|split; [|split]].
  - eexists _, _. split; [by apply destroyPlayerContext_run|].
    split; [apply destroy_events_delete|].
    split; [by apply stop_precedes_delete_destroy|done].
  - eexists _, _. split; [by apply (nativeReleaseMedia_present _ _ _ g p c)|].
    split; [apply destroy_events_delete|].
    split; [by apply stop_precedes_delete_destroy|done].
  - intros vm engine hub width height args.
    rewrite (nativeStart_restart _ _ _ _ _ _ _ _ _ _ _ _ Hg Hh Hv Hu Hp Hc).
    destruct (nativeStart_fresh_returns vm engine h url hub width height args
                (mkMemory (<[h := set_players (delete url (players g)) g]> (globals m))
                          (delete p (contexts m)))
                (set_players (delete url (players g)) g))
      as (b & m' & t & ->); [apply lookup_insert_eq|done|done|apply lookup_delete_eq|].
    exists b, m', (destroy_events p c ++ t). split; [done|]. split; [|split; [|split]].
    + apply in_app_iff. left. apply destroy_events_delete.
    + rewrite (destroy_events_stop_first _ _ Hmp). apply stop_precedes_delete_head.
    + by apply torn_down_in_order_head.
    + by apply stop_precedes_teardown_head.
  - by apply (release_body_order h m g url p c).
Qed.

(** ** The registry invariant is established and kept *)

Lemma registry_ok_contexts m m' g :
  contexts m = contexts m' → registry_ok m g → registry_ok m' g.
Proof. unfold registry_ok. by intros <-. Qed.

Lemma fresh_handle (gs : gmap Z GlobalContext) :
  fresh ({[0]} ∪ dom gs) ≠ 0 ∧ gs !! fresh ({[0]} ∪ dom gs) = None.
Proof.
  pose proof (is_fresh ({[0]} ∪ dom gs)) as H.
  split.
  - intros E. apply H. rewrite E. set_solver.
  - apply not_elem_of_dom. set_solver.
Qed.

(** A successful [nativeCreateVLC] returns a fresh non-null handle to a
    registry with no streams. *)
Lemma nativeCreateVLC_registry engine args m :
  r_libvlc_new engine ≠ 0 →
  ∃ h m',
    nativeCreateVLC engine args m =
      Some (h, m',
            [New_GlobalContext h; libvlc_new args (r_libvlc_new engine)] ++
            map DeleteLocalRef_jstring args) ∧
    h ≠ 0 ∧ globals m !! h = None ∧
    globals m' !! h = Some (mkGlobalContext (r_libvlc_new engine) ∅) ∧
    contexts m' = contexts m ∧
    registry_ok m' (mkGlobalContext (r_libvlc_new engine) ∅).
Proof.
  intros Hinst. destruct (fresh_handle (globals m)) as [Hh Hfree].
  unfold nativeCreateVLC.
  set (h := fresh ({[0]} ∪ dom (globals m))) in *.
  exists h, (set_globals (<[h := mkGlobalContext (r_libvlc_new engine) ∅]> (globals m)) m).
  split.
  { change ((new_global ≫= _) m) with
      (after [New_GlobalContext h]
         ((emit (libvlc_new args (r_libvlc_new engine));;
           modify_global h (set_vlc (r_libvlc_new engine));;
           for_each args (λ string, emit (DeleteLocalRef_jstring string));;
           if null (r_libvlc_new engine) then delete_global h;; mret 0 else mret h)
            (set_globals (<[h := mkGlobalContext 0 ∅]> (globals m)) m))).
    rewrite run_emit_bind.
    erewrite run_modify_global_bind by cmd_live. mem_norm.
    rewrite (run_bind_Some _ _ _ _ _ _ (for_each_emit DeleteLocalRef_jstring args _)).
    rewrite (null_false _ Hinst), run_ret. simpl. by rewrite app_nil_r. }
  split; [done|]. split; [done|]. split; [apply lookup_insert_eq|].
  split; [done|]. split; simpl; intros *; by rewrite lookup_empty.
Qed.

(** What [format_setup] leaves alone: the player and the sink. *)
Lemma format_setup_keeps_handles can_allocate ctx width height :
  mp (format_setup can_allocate ctx width height).1 = mp ctx ∧
  frameHub (format_setup can_allocate ctx width height).1 = frameHub ctx ∧
  onFrameMethod (format_setup can_allocate ctx width height).1 = onFrameMethod ctx.
Proof.
  unfold format_setup.
  destruct ((0 <? actualWidth ctx) && (0 <? actualHeight ctx));
    by destruct (can_allocate _).
Qed.

(** Negotiating a format on a registered context keeps the invariant. *)
Lemma format_setup_cb_preserves_registry can_allocate opaque width height m g ctx :
  registry_ok m g → contexts m !! opaque = Some ctx →
  ∃ reply m',
    format_setup_cb can_allocate opaque width height m = Some (reply, m', []) ∧
    globals m' = globals m ∧ registry_ok m' g.
Proof.
  intros [Hlive Hinj] Hc. rewrite (format_setup_cb_run _ _ _ _ _ _ Hc).
  eexists _, _. split; [reflexivity|]. split; [done|]. split; [|done].
  intros url p Hu. destruct (Hlive _ _ Hu) as (Hp & c & Hpc & Hmp). split; [done|].
  simpl. destruct (decide (p = opaque)) as [->|Hne].
  - rewrite lookup_insert_eq. eexists. split; [done|].
    destruct (format_setup_keeps_handles can_allocate ctx width height) as [-> _].
    congruence.
  - rewrite lookup_insert_ne by done. eauto.
Qed.

(** Releasing a stream always returns on a well-formed registry and keeps
    it well formed. *)
Lemma nativeReleaseMedia_preserves_registry h url m g :
  globals m !! h = Some g → h ≠ 0 → vlc g ≠ 0 → registry_ok m g →
  ∃ b m' t g',
    nativeReleaseMedia h url m = Some (b, m', t) ∧
    globals m' !! h = Some g' ∧ vlc g' = vlc g ∧ registry_ok m' g'.
Proof.
  intros Hg Hh Hv Hok.
  destruct (players g !! url) as [p|] eqn:Hu.
  - destruct Hok as [Hlive Hinj].
    destruct (Hlive _ _ Hu) as (Hp & c & Hc & Hmp).
    rewrite (nativeReleaseMedia_present _ _ _ _ _ _ Hg Hh Hv Hu Hp Hc).
    eexists _, _, _, _. split; [reflexivity|]. simpl.
    split; [apply lookup_insert_eq|]. split; [done|].
    eapply registry_ok_contexts; [|by apply (registry_ok_release m g url p)]. done.
  - rewrite (nativeReleaseMedia_absent _ _ _ _ Hg Hh Hv Hu). by eexists _, _, _, g.
Qed.

(** Starting a stream always returns on a well-formed registry and, as
    long as LibVLC hands out a player, keeps it well formed. *)
Lemma nativeStart_preserves_registry vm engine h url hub width height args m g :
  globals m !! h = Some g → h ≠ 0 → vlc g ≠ 0 → registry_ok m g →
  r_media_player_new_from_media engine ≠ 0 →
  ∃ b m' t g',
    nativeStart vm engine h url hub width height args m = Some (b, m', t) ∧
    globals m' !! h = Some g' ∧ vlc g' = vlc g ∧ registry_ok m' g'.
Proof.
  intros Hg Hh Hv Hok Hplayer.
  assert (∀ m0 g0,
    globals m0 !! h = Some g0 → vlc g0 = vlc g → registry_ok m0 g0 →
    players g0 !! url = None →
    ∃ b m' t g',
      nativeStart vm engine h url hub width height args m0 = Some (b, m', t) ∧
      globals m' !! h = Some g' ∧ vlc g' = vlc g ∧ registry_ok m' g') as Hfresh.
  { intros m0 g0 Hg0 Hv0 Hok0 Hu0.
    assert (vlc g0 ≠ 0) as Hv0' by congruence.
    rewrite (nativeStart_fresh _ _ _ _ _ _ _ _ _ _ Hg0 Hh Hv0' Hu0). cbv zeta.
    destruct (fresh_address (contexts m0)) as [Hp0 Hpfree].
    destruct (null _); [by eexists _, _, _, g0|].
    destruct (negb _); [by eexists _, _, _, g0|].
    eexists _, _, _, _. split; [reflexivity|]. simpl.
    split; [apply lookup_insert_eq|]. split; [done|].
    eapply registry_ok_contexts;
      [|by apply (registry_ok_start m0 g0 url _ (new_context vm engine width height))].
    done. }
  destruct (players g !! url) as [p|] eqn:Hu; [|by apply (Hfresh m g)].
  destruct (Hok) as [Hlive Hinj].
  destruct (Hlive _ _ Hu) as (Hp & c & Hc & Hmp).
  rewrite (nativeStart_restart _ _ _ _ _ _ _ _ _ _ _ _ Hg Hh Hv Hu Hp Hc).
  destruct (Hfresh
              (mkMemory (<[h := set_players (delete url (players g)) g]> (globals m))
                        (delete p (contexts m)))
              (set_players (delete url (players g)) g))
    as (b & m' & t & g' & -> & Hg' & Hv' & Hok').
  - apply lookup_insert_eq.
  - done.
  - eapply registry_ok_contexts; [|by apply (registry_ok_release m g url p)]. done.
  - apply lookup_delete_eq.
  - by eexists _, _, _, g'.
Qed.

(** ** The properties at work on a small registry *)

Lemma demo_registry_ok : registry_ok demo_memory demo_global.
Proof.
  split; unfold demo_global; cbn [players].
  - intros url p [<- <-]%lookup_singleton_Some. split; [done|].
    exists demo_ctx. split; [reflexivity|done].
  - intros url1 url2 p [<- _]%lookup_singleton_Some [<- _]%lookup_singleton_Some.
    reflexivity.
Qed.

Lemma demo_global_live : globals demo_memory !! 50 = Some demo_global.
Proof. reflexivity. Qed.

Lemma demo_stream_registered : players demo_global !! demo_url = Some 1.
Proof. reflexivity. Qed.

Lemma demo_ctx_live : contexts demo_memory !! 1 = Some demo_ctx.
Proof. reflexivity. Qed.

Lemma nativeStart_replaces_witness :
  ∃ b m' t_new,
    nativeStart demo_vm demo_engine 50 demo_url 77 320 240 None demo_memory =
      Some (b, m',
            [libvlc_media_player_stop 300; libvlc_media_player_release 300;
             DeleteGlobalRef 5; Delete_PlayerContext 1] ++ t_new) ∧
    (b = true ↔ r_media_new_location demo_engine ≠ 0 ∧
                r_media_player_play demo_engine = 0).
Proof.
  assert (50 ≠ 0) as Hh by lia.
  assert (vlc demo_global ≠ 0) as Hv by (simpl; lia).
  destruct (nativeStart_replaces demo_vm demo_engine 50 demo_url 77 320 240 None
              demo_memory demo_global 1
              demo_global_live Hh Hv demo_registry_ok demo_stream_registered)
    as (c & b & m' & t_new & Hc & Hrun & _ & Hb & _).
  rewrite demo_ctx_live in Hc. injection Hc as <-.
  exists b, m', t_new. split; [exact Hrun | exact Hb].
Defined.

Lemma nativeStart_failed_restart_witness :
  ∃ m' t_new,
    nativeStart demo_vm no_play_engine 50 demo_url 77 320 240 None demo_memory =
      Some (false, m',
            [libvlc_media_player_stop 300; libvlc_media_player_release 300;
             DeleteGlobalRef 5; Delete_PlayerContext 1] ++ t_new) ∧
    players_at m' 50 !! demo_url = None.
Proof.
  assert (50 ≠ 0) as Hh by lia.
  assert (vlc demo_global ≠ 0) as Hv by (simpl; lia).
  assert (r_media_new_location no_play_engine = 0 ∨
          r_media_player_play no_play_engine ≠ 0) as Hfail by (right; simpl; lia).
  destruct (nativeStart_failed_restart demo_vm no_play_engine 50 demo_url 77 320 240 None
              demo_memory demo_global 1
              demo_global_live Hh Hv demo_registry_ok demo_stream_registered Hfail)
    as (c & m' & t_new & Hc & Hrun & _ & Hnone & _).
  rewrite demo_ctx_live in Hc. injection Hc as <-.
  exists m', t_new. split; [exact Hrun | exact Hnone].
Defined.

Lemma nativeReleaseMedia_spec_witness :
  ∃ m',
    nativeReleaseMedia 50 demo_url demo_memory =
      Some (true, m',
            [libvlc_media_player_stop 300; libvlc_media_player_release 300;
             DeleteGlobalRef 5; Delete_PlayerContext 1]) ∧
    players_at m' 50 !! demo_url = None ∧
    nativeReleaseMedia 50 demo_url m' = Some (false, m', []).
Proof.
  assert (50 ≠ 0) as Hh by lia.
  assert (vlc demo_global ≠ 0) as Hv by (simpl; lia).
  pose proof (nativeReleaseMedia_spec 50 demo_url demo_memory demo_global
                demo_global_live Hh Hv demo_registry_ok) as H.
  rewrite demo_stream_registered in H.
  destruct H as (c & m' & Hc & Hrun & _ & _ & _ & Hnone & Hagain).
  rewrite demo_ctx_live in Hc. injection Hc as <-.
  exists m'. split; [exact Hrun|]. split; [exact Hnone | exact Hagain].
Defined.

Lemma stop_precedes_destroy_witness :
  ∃ m' t,
    (release_all_streams 50;; release_instance 50) demo_memory = Some (tt, m', t) ∧
    In (Delete_PlayerContext 1) t ∧
    stop_precedes_delete 300 1 t ∧
    torn_down_in_order 1 demo_ctx t ∧
    stop_precedes_teardown 300 5 1 t.
Proof.
  assert (50 ≠ 0) as Hh by lia.
  assert (vlc demo_global ≠ 0) as Hv by (simpl; lia).
  destruct (stop_precedes_destroy 50 demo_url demo_memory demo_global 1 demo_ctx
              demo_global_live Hh Hv demo_registry_ok demo_stream_registered
              demo_ctx_live)
    as (_ & _ & _ & m' & t & Hrun & Hd & Hs & Hblock & Hstrong).
  exists m', t. split; [exact Hrun|]. split; [exact Hd|]. split; [exact Hs|].
  split; [exact Hblock|]. apply Hstrong.
  intros url' p' c' Hu Hne. unfold demo_global in Hu. cbn [players] in Hu.
  apply lookup_singleton_Some in Hu as [_ <-]. by destruct Hne.
Defined.

(** The scenario runs to the end: the start succeeds, the negotiation
    adopts 4 x 2 with a pitch of 8 bytes, the one frame shown is a 16-byte
    view delivered with width 4 and height 2 between an attach and a
    detach, the first release returns true after stopping the player, and
    the second returns false without calling anything. *)
Example one_stream_scenario_runs :
  one_stream_scenario (mkMemory ∅ ∅) =
    Some ((1, true, mkFormatReply 1 "RV16" 4 2 8 2, true, false),
          mkMemory {[ 1 := mkGlobalContext 100 ∅ ]} ∅,
          [New_GlobalContext 1; libvlc_new [] 100;
           New_PlayerContext 1; NewGlobalRef 77 7; GetObjectClass 77;
           GetMethodID 77 "onRawFrame" "(Ljava/nio/ByteBuffer;II)V" 8;
           libvlc_media_new_location 100 "mock://a" 200;
           libvlc_media_add_option 200 "--no-audio"; DeleteLocalRef_jstring "--no-audio";
           libvlc_media_player_new_from_media 200 301;
           libvlc_media_release 200;
           libvlc_video_set_callbacks 301 1;
           libvlc_video_set_format_callbacks 301;
           libvlc_media_player_play 301 0;
           GetEnv JNI_EDETACHED; AttachCurrentThread JNI_OK;
           NewDirectByteBuffer (replicate 16 Byte.x00) 16 9;
           CallVoidMethod 7 8 9 4 2; DeleteLocalRef 9;
           DetachCurrentThread;
           libvlc_media_player_stop 301; libvlc_media_player_release 301;
           DeleteGlobalRef 7; Delete_PlayerContext 1]).
Proof. vm_compute. reflexivity. Qed.

(** * Further properties *)

(** ** Format negotiation, lock and display together *)

(** The dimensions the context holds after a negotiation are the ones the
    engine was told, as long as the [int] fields hold [int] values and the
    proposal is below 2^31. *)
Lemma format_setup_dims_agree can_allocate ctx width height :
  Int32.is_int (actualWidth ctx) → Int32.is_int (actualHeight ctx) →
  0 <= width < Int32.half_modulus → 0 <= height < Int32.half_modulus →
  actualWidth (format_setup can_allocate ctx width height).1 =
    fmt_width (format_setup can_allocate ctx width height).2 ∧
  actualHeight (format_setup can_allocate ctx width height).1 =
    fmt_height (format_setup can_allocate ctx width height).2.
Proof.
  intros Hiw Hih Hw Hh.
  destruct (decide (0 < actualWidth ctx ∧ 0 < actualHeight ctx)) as [[H1 H2]|Hn].
  - pose proof (format_setup_forced can_allocate ctx width height H1 H2 Hiw Hih) as H.
    destruct (format_setup can_allocate ctx width height) as [ctx' reply].
    simpl. destruct H as (-> & -> & -> & ->). done.
  - pose proof (format_setup_adopt can_allocate ctx width height Hn) as H.
    destruct (format_setup can_allocate ctx width height) as [ctx' reply].
    simpl. destruct H as (-> & -> & -> & ->).
    rewrite !Int32Facts.to_int_id; [done| |];
      unfold Int32.is_int, Int32.half_modulus in *; lia.
Qed.

(** X1: when the context carries caller-chosen dimensions, both positive,
    a negotiation tells the engine exactly those, with a pitch of twice the
    width as [unsigned] and the chroma RV16, and the context keeps them,
    whatever the engine proposed and whether or not the buffer could be
    resized. *)
Theorem format_setup_cb_forced can_allocate opaque width height m ctx :
  contexts m !! opaque = Some ctx →
  0 < actualWidth ctx → 0 < actualHeight ctx →
  Int32.is_int (actualWidth ctx) → Int32.is_int (actualHeight ctx) →
  ∃ reply m' ctx',
    format_setup_cb can_allocate opaque width height m = Some (reply, m', []) ∧
    contexts m' !! opaque = Some ctx' ∧
    fmt_width reply = actualWidth ctx ∧ fmt_height reply = actualHeight ctx ∧
    fmt_pitches reply = Int32.umul (actualWidth ctx) 2 ∧
    fmt_lines reply = actualHeight ctx ∧
    fmt_chroma reply = "RV16" ∧
    actualWidth ctx' = actualWidth ctx ∧ actualHeight ctx' = actualHeight ctx.
Proof.
  intros Hl Hw Hh Hiw Hih.
  rewrite (format_setup_cb_run _ _ _ _ _ _ Hl).
  pose proof (format_setup_forced can_allocate ctx width height Hw Hh Hiw Hih) as H.
  pose proof (format_setup_buffer can_allocate ctx width height) as Hb.
  assert (fmt_chroma (format_setup can_allocate ctx width height).2 = "RV16") as Hc.
  { unfold format_setup. by destruct (can_allocate _). }
  destruct (format_setup can_allocate ctx width height) as [ctx' reply].
  destruct H as (H1 & H2 & H3 & H4). destruct Hb as (Hp & Hlines & _).
  eexists reply, _, ctx'. split; [reflexivity|].
  split; [apply lookup_insert_eq|]. simpl in *.
  rewrite Hp, Hlines, H1, H2. done.
Qed.

Lemma format_setup_cb_forced_witness :
  ∃ reply m',
    format_setup_cb (λ _, true) 1 1920 1080 demo_memory = Some (reply, m', []) ∧
    fmt_width reply = 640 ∧ fmt_height reply = 480.
Proof.
  assert (0 < actualWidth demo_ctx) as Hw by (simpl; lia).
  assert (0 < actualHeight demo_ctx) as Hh by (simpl; lia).
  assert (Int32.is_int (actualWidth demo_ctx)) as Hiw by (unfold Int32.is_int, Int32.half_modulus; simpl; lia).
  assert (Int32.is_int (actualHeight demo_ctx)) as Hih by (unfold Int32.is_int, Int32.half_modulus; simpl; lia).
  destruct (format_setup_cb_forced (λ _, true) 1 1920 1080 demo_memory demo_ctx
              demo_ctx_live Hw Hh Hiw Hih)
    as (reply & m' & ctx' & Hrun & _ & H1 & H2 & _).
  exists reply, m'. split; [exact Hrun|]. split; [exact H1 | exact H2].
Defined.

(** X2: when the context does not hold two positive dimensions (none was
    forced, or only one of the two is positive), a negotiation returns the
    engine's proposal unchanged and writes it to the context, overwriting
    both fields, whether or not the buffer could then be resized. (For a
    proposal below 2^31; a larger one is stored wrapped to a negative
    [int].) *)
Theorem format_setup_cb_adopts can_allocate opaque width height m ctx :
  contexts m !! opaque = Some ctx →
  ¬ (0 < actualWidth ctx ∧ 0 < actualHeight ctx) →
  0 <= width < Int32.half_modulus → 0 <= height < Int32.half_modulus →
  ∃ reply m' ctx',
    format_setup_cb can_allocate opaque width height m = Some (reply, m', []) ∧
    contexts m' !! opaque = Some ctx' ∧
    fmt_width reply = width ∧ fmt_height reply = height ∧
    actualWidth ctx' = width ∧ actualHeight ctx' = height.
Proof.
  intros Hl Hn Hw Hh.
  rewrite (format_setup_cb_run _ _ _ _ _ _ Hl).
  pose proof (format_setup_adopt can_allocate ctx width height Hn) as H.
  destruct (format_setup can_allocate ctx width height) as [ctx' reply].
  destruct H as (H1 & H2 & H3 & H4).
  eexists reply, _, ctx'. split; [reflexivity|].
  split; [apply lookup_insert_eq|]. simpl.
  rewrite H1, H2, H3, H4.
  rewrite !Int32Facts.to_int_id; [done| |];
    unfold Int32.is_int, Int32.half_modulus in *; lia.
Qed.

Lemma format_setup_cb_adopts_witness :
  ∃ reply m' ctx',
    format_setup_cb (λ _, false) 1 320 240
      (mkMemory ∅ {[ 1 := mkPlayerContext 5 6 300 [] 640 0 ]}) = Some (reply, m', []) ∧
    contexts m' !! 1 = Some ctx' ∧
    fmt_width reply = 320 ∧ fmt_height reply = 240 ∧
    actualWidth ctx' = 320 ∧ actualHeight ctx' = 240.
Proof.
  set (ctx := mkPlayerContext 5 6 300 [] 640 0).
  set (m := mkMemory ∅ {[ 1 := ctx ]}).
  assert (contexts m !! 1 = Some ctx) as Hl by reflexivity.
  assert (¬ (0 < actualWidth ctx ∧ 0 < actualHeight ctx)) as Hn by (simpl; lia).
  assert (0 <= 320 < Int32.half_modulus) as Hw by (unfold Int32.is_int, Int32.half_modulus; simpl; lia).
  assert (0 <= 240 < Int32.half_modulus) as Hh by (unfold Int32.is_int, Int32.half_modulus; simpl; lia).
  exact (format_setup_cb_adopts (λ _, false) 1 320 240 m ctx Hl Hn Hw Hh).
Defined.

(** X3: the first adopted size sticks. After a negotiation on a context
    without forced dimensions has adopted a proposal with both dimensions
    positive, every later negotiation on that context returns that first
    size, whatever it is offered, even if the first negotiation failed to
    resize the buffer. *)
Theorem format_setup_cb_first_size_sticks can_allocate opaque width height m ctx :
  contexts m !! opaque = Some ctx →
  ¬ (0 < actualWidth ctx ∧ 0 < actualHeight ctx) →
  0 < width < Int32.half_modulus → 0 < height < Int32.half_modulus →
  ∃ reply m1,
    format_setup_cb can_allocate opaque width height m = Some (reply, m1, []) ∧
    ∀ can_allocate2 width2 height2,
      ∃ reply2 m2,
        format_setup_cb can_allocate2 opaque width2 height2 m1 =
          Some (reply2, m2, []) ∧
        fmt_width reply2 = width ∧ fmt_height reply2 = height.
Proof.
  intros Hl Hn Hw Hh.
  rewrite (format_setup_cb_run _ _ _ _ _ _ Hl).
  pose proof (format_setup_adopt can_allocate ctx width height Hn) as H.
  destruct (format_setup can_allocate ctx width height) as [ctx1 reply].
  destruct H as (_ & _ & Hw1 & Hh1).
  rewrite Int32Facts.to_int_id in Hw1, Hh1
    by (unfold Int32.is_int, Int32.half_modulus in *; lia).
  eexists reply, _. split; [reflexivity|].
  intros can_allocate2 width2 height2. simpl.
  set (m1 := set_contexts _ m).
  assert (contexts m1 !! opaque = Some ctx1) as Hl1 by apply lookup_insert_eq.
  rewrite (format_setup_cb_run _ _ _ _ _ _ Hl1).
  pose proof (format_setup_forced can_allocate2 ctx1 width2 height2) as H.
  destruct (format_setup can_allocate2 ctx1 width2 height2) as [ctx2 reply2].
  destruct H as (H1 & H2 & _); try lia.
  - rewrite Hw1. unfold Int32.is_int, Int32.half_modulus in *. lia.
  - rewrite Hh1. unfold Int32.is_int, Int32.half_modulus in *. lia.
  - eexists reply2, _. split; [reflexivity|]. simpl. by rewrite H1, H2.
Qed.

Lemma format_setup_cb_first_size_sticks_witness :
  ∃ reply m1,
    format_setup_cb (λ _, true) 1 320 240
      (mkMemory ∅ {[ 1 := mkPlayerContext 5 6 300 [] 0 0 ]}) = Some (reply, m1, []) ∧
    ∃ reply2 m2,
      format_setup_cb (λ _, true) 1 1920 1080 m1 = Some (reply2, m2, []) ∧
      fmt_width reply2 = 320 ∧ fmt_height reply2 = 240.
Proof.
  set (ctx := mkPlayerContext 5 6 300 [] 0 0).
  set (m := mkMemory ∅ {[ 1 := ctx ]}).
  assert (contexts m !! 1 = Some ctx) as Hl by reflexivity.
  assert (¬ (0 < actualWidth ctx ∧ 0 < actualHeight ctx)) as Hn by (simpl; lia).
  assert (0 < 320 < Int32.half_modulus) as Hw by (unfold Int32.half_modulus; simpl; lia).
  assert (0 < 240 < Int32.half_modulus) as Hh by (unfold Int32.half_modulus; simpl; lia).
  destruct (format_setup_cb_first_size_sticks (λ _, true) 1 320 240 m ctx Hl Hn Hw Hh)
    as (reply & m1 & Hrun & Hlater).
  exists reply, m1. split; [exact Hrun|]. exact (Hlater (λ _, true) 1920 1080).
Defined.

(** X4: when twice the width times the height fits 32 bits, a successful
    negotiation leaves a buffer of exactly [width * height * 2] bytes and
    reports a pitch of [2 * width] bytes and [height] lines. *)
Theorem format_setup_cb_buffer_exact can_allocate opaque width height m ctx :
  contexts m !! opaque = Some ctx →
  ∃ reply m' ctx',
    format_setup_cb can_allocate opaque width height m = Some (reply, m', []) ∧
    contexts m' !! opaque = Some ctx' ∧
    (fmt_result reply = 1 →
     0 <= fmt_width reply → 0 <= fmt_height reply →
     fmt_width reply * 2 * fmt_height reply < Int32.modulus →
     Z.of_nat (length (buffer ctx')) = fmt_width reply * fmt_height reply * 2 ∧
     (fmt_height reply ≠ 0 → fmt_pitches reply = fmt_width reply * 2) ∧
     fmt_lines reply = fmt_height reply).
Proof.
  intros Hl.
  rewrite (format_setup_cb_run _ _ _ _ _ _ Hl).
  pose proof (format_setup_buffer_no_wrap can_allocate ctx width height) as H.
  pose proof (format_setup_buffer can_allocate ctx width height) as Hb.
  destruct (format_setup can_allocate ctx width height) as [ctx' reply].
  destruct Hb as (Hp & Hlines & _).
  eexists reply, _, ctx'. split; [reflexivity|].
  split; [apply lookup_insert_eq|].
  intros Hok Hw Hh Hfit. split; [by apply H|]. split; [|done].
  intros Hne. rewrite Hp. apply Int32Facts.umul_exact.
  unfold Int32.modulus in *. nia.
Qed.

Lemma format_setup_cb_buffer_exact_witness :
  ∃ reply m' ctx',
    format_setup_cb (λ _, true) 1 320 240
      (mkMemory ∅ {[ 1 := mkPlayerContext 5 6 300 [] 0 0 ]}) = Some (reply, m', []) ∧
    contexts m' !! 1 = Some ctx' ∧
    Z.of_nat (length (buffer ctx')) = 153600.
Proof.
  set (ctx := mkPlayerContext 5 6 300 [] 0 0).
  set (m := mkMemory ∅ {[ 1 := ctx ]}).
  assert (contexts m !! 1 = Some ctx) as Hl by reflexivity.
  destruct (format_setup_cb_buffer_exact (λ _, true) 1 320 240 m ctx Hl)
    as (reply & m' & ctx' & Hrun & Hctx & Hsize).
  exists reply, m', ctx'. split; [exact Hrun|]. split; [exact Hctx|].
  rewrite (format_setup_cb_run _ _ _ _ _ _ Hl) in Hrun.
  injection Hrun as Hreply _. subst reply.
  destruct Hsize as [Hlen _].
  - reflexivity.
  - simpl. lia.
  - simpl. lia.
  - unfold Int32.modulus. simpl. lia.
  - rewrite Hlen. reflexivity.
Defined.

(** X5: after a successful negotiation, [lock_cb] on the same context
    hands the engine a buffer of exactly the number of bytes the
    negotiation reported (pitch times lines, as [unsigned]), returns the
    context as the picture id, calls nothing and changes nothing. *)
Theorem lock_cb_after_format_setup can_allocate opaque width height m ctx :
  contexts m !! opaque = Some ctx →
  ∃ reply m1,
    format_setup_cb can_allocate opaque width height m = Some (reply, m1, []) ∧
    (fmt_result reply = 1 →
     ∃ planes0,
       lock_cb opaque m1 = Some ((planes0, opaque), m1, []) ∧
       Z.of_nat (length planes0) = requested_size reply).
Proof.
  intros Hl.
  rewrite (format_setup_cb_run _ _ _ _ _ _ Hl).
  pose proof (format_setup_buffer can_allocate ctx width height) as Hb.
  destruct (format_setup can_allocate ctx width height) as [ctx' reply].
  destruct Hb as (_ & _ & _ & _ & Hlen & _).
  eexists reply, _. split; [reflexivity|].
  intros Hok. exists (buffer ctx'). split; [|by apply Hlen].
  unfold lock_cb. simpl.
  by rewrite (run_load_ctx_bind _ ctx') by apply lookup_insert_eq.
Qed.

Lemma lock_cb_after_format_setup_witness :
  ∃ reply m1 planes0,
    format_setup_cb (λ _, true) 1 4 2
      (mkMemory ∅ {[ 1 := mkPlayerContext 5 6 300 [] 0 0 ]}) = Some (reply, m1, []) ∧
    lock_cb 1 m1 = Some ((planes0, 1), m1, []) ∧
    Z.of_nat (length planes0) = 16.
Proof.
  set (ctx := mkPlayerContext 5 6 300 [] 0 0).
  set (m := mkMemory ∅ {[ 1 := ctx ]}).
  assert (contexts m !! 1 = Some ctx) as Hl by reflexivity.
  destruct (lock_cb_after_format_setup (λ _, true) 1 4 2 m ctx Hl)
    as (reply & m1 & Hrun & Hlock).
  assert (fmt_result reply = 1 ∧ requested_size reply = 16) as [Hok Hsize].
  { pose proof Hrun as Hrun'.
    rewrite (format_setup_cb_run _ _ _ _ _ _ Hl) in Hrun'.
    injection Hrun' as <- _. split; reflexivity. }
  destruct (Hlock Hok) as (planes0 & Hlocked & Hlen).
  exists reply, m1, planes0. split; [exact Hrun|].
  split; [exact Hlocked|]. by rewrite Hlen.
Defined.

(** X6: a frame shown after a successful negotiation is delivered with the
    negotiated width and height and a byte buffer whose capacity is the
    negotiated byte count. Precisely: on a live context with a sink and a
    resolved method id, whose [int] fields hold [int] values, after a
    negotiation of a proposal below 2^31 that returned 1, a [display_cb]
    with a reachable environment and a byte buffer that could be created
    makes one delivery, with the width and height the engine was told,
    over a view of [pitch * lines] bytes. *)
Theorem display_cb_after_format_setup can_allocate vm opaque width height m ctx :
  contexts m !! opaque = Some ctx → opaque ≠ 0 →
  frameHub ctx ≠ 0 → onFrameMethod ctx ≠ 0 →
  Int32.is_int (actualWidth ctx) → Int32.is_int (actualHeight ctx) →
  0 <= width < Int32.half_modulus → 0 <= height < Int32.half_modulus →
  env_reachable vm = true → r_NewDirectByteBuffer vm ≠ 0 →
  ∃ reply m1,
    format_setup_cb can_allocate opaque width height m = Some (reply, m1, []) ∧
    (fmt_result reply = 1 →
     ∃ t data,
       display_cb vm opaque m1 = Some (tt, m1, t) ∧
       deliveries t = 1%nat ∧
       Z.of_nat (length data) = requested_size reply ∧
       In (NewDirectByteBuffer data (requested_size reply) (r_NewDirectByteBuffer vm)) t ∧
       In (CallVoidMethod (frameHub ctx) (onFrameMethod ctx) (r_NewDirectByteBuffer vm)
             (fmt_width reply) (fmt_height reply)) t).
Proof.
  intros Hl Ho Hhub Hmid Hiw Hih Hw Hh Hreach Hbuf.
  rewrite (format_setup_cb_run _ _ _ _ _ _ Hl).
  pose proof (format_setup_buffer can_allocate ctx width height) as Hb.
  pose proof (format_setup_dims_agree can_allocate ctx width height Hiw Hih Hw Hh) as Hd.
  pose proof (format_setup_keeps_handles can_allocate ctx width height) as Hk.
  destruct (format_setup can_allocate ctx width height) as [ctx' reply].
  simpl in Hd, Hk. destruct Hd as [Hdw Hdh]. destruct Hk as (Hmp & Hhub' & Hmid').
  destruct Hb as (_ & _ & _ & _ & Hlen & _).
  eexists reply, _. split; [reflexivity|]. intros Hok. simpl.
  set (m1 := set_contexts _ m).
  assert (contexts m1 !! opaque = Some ctx') as Hl1 by apply lookup_insert_eq.
  assert (frameHub ctx' ≠ 0) as Hhub1 by congruence.
  exists ([GetEnv (r_GetEnv vm)] ++
          (if r_GetEnv vm =? JNI_OK then []
           else [AttachCurrentThread (r_AttachCurrentThread vm)]) ++
          [NewDirectByteBuffer (buffer ctx') (Z.of_nat (length (buffer ctx')))
             (r_NewDirectByteBuffer vm);
           CallVoidMethod (frameHub ctx') (onFrameMethod ctx') (r_NewDirectByteBuffer vm)
             (actualWidth ctx') (actualHeight ctx');
           DeleteLocalRef (r_NewDirectByteBuffer vm)] ++
          (if r_GetEnv vm =? JNI_OK then [] else [DetachCurrentThread])),
         (buffer ctx').
  split.
  { rewrite (display_cb_unfold _ _ _ _ Hl1 Ho Hhub1), getJNIEnv_run.
    rewrite (nonnull_true (onFrameMethod ctx')) by congruence.
    unfold env_reachable in Hreach.
    destruct (r_GetEnv vm =? JNI_OK); [by cmd_eval; rewrite (nonnull_true _ Hbuf)|].
    destruct (r_GetEnv vm =? JNI_EDETACHED); [|done].
    destruct (r_AttachCurrentThread vm =? JNI_OK); [|done].
    by cmd_eval; rewrite (nonnull_true _ Hbuf). }
  rewrite <- (Hlen Hok), Hhub', Hmid', Hdw, Hdh.
  split; [by destruct (r_GetEnv vm =? JNI_OK)|]. split; [done|].
  split; destruct (r_GetEnv vm =? JNI_OK); simpl; tauto.
Qed.

Lemma display_cb_after_format_setup_witness :
  ∃ reply m1 t data,
    format_setup_cb (λ _, true) 1 4 2
      (mkMemory ∅ {[ 1 := mkPlayerContext 5 6 300 [] 0 0 ]}) = Some (reply, m1, []) ∧
    display_cb demo_vm 1 m1 = Some (tt, m1, t) ∧
    Z.of_nat (length data) = 16 ∧
    In (NewDirectByteBuffer data 16 9) t ∧
    In (CallVoidMethod 5 6 9 4 2) t.
Proof.
  set (ctx := mkPlayerContext 5 6 300 [] 0 0).
  set (m := mkMemory ∅ {[ 1 := ctx ]}).
  assert (contexts m !! 1 = Some ctx) as Hl by reflexivity.
  assert (1 ≠ 0) as Ho by lia.
  assert (frameHub ctx ≠ 0) as Hhub by (simpl; lia).
  assert (onFrameMethod ctx ≠ 0) as Hmid by (simpl; lia).
  assert (Int32.is_int (actualWidth ctx)) as Hiw
    by (unfold Int32.is_int, Int32.half_modulus; simpl; lia).
  assert (Int32.is_int (actualHeight ctx)) as Hih
    by (unfold Int32.is_int, Int32.half_modulus; simpl; lia).
  assert (0 <= 4 < Int32.half_modulus) as Hw by (unfold Int32.half_modulus; simpl; lia).
  assert (0 <= 2 < Int32.half_modulus) as Hh by (unfold Int32.half_modulus; simpl; lia).
  assert (env_reachable demo_vm = true) as Hreach by reflexivity.
  assert (r_NewDirectByteBuffer demo_vm ≠ 0) as Hbuf by (simpl; lia).
  destruct (display_cb_after_format_setup (λ _, true) demo_vm 1 4 2 m ctx
              Hl Ho Hhub Hmid Hiw Hih Hw Hh Hreach Hbuf)
    as (reply & m1 & Hrun & Hshow).
  assert (fmt_result reply = 1 ∧ requested_size reply = 16 ∧
          fmt_width reply = 4 ∧ fmt_height reply = 2) as (Hok & Hsize & Hrw & Hrh).
  { pose proof Hrun as Hrun'.
    rewrite (format_setup_cb_run _ _ _ _ _ _ Hl) in Hrun'.
    injection Hrun' as <- _. repeat split; reflexivity. }
  destruct (Hshow Hok) as (t & data & Hdisp & _ & Hlen & Hview & Hcall).
  exists reply, m1, t, data. split; [exact Hrun|]. split; [exact Hdisp|].
  rewrite Hsize in Hlen, Hview. rewrite Hrw, Hrh in Hcall.
  split; [exact Hlen|]. split; [exact Hview | exact Hcall].
Defined.

(** ** Thread attachment and local references *)

(** X7: [getJNIEnv] always returns and changes no memory. It hands out an
    environment exactly when the thread is attached already or could be
    attached; when it does, it reports a detach as owed exactly when it
    attached the thread itself (and clears the flag otherwise); when it
    does not, it leaves the caller's flag as it was. It calls
    [AttachCurrentThread] only after [GetEnv] reported the thread
    detached, and never detaches. *)
Theorem getJNIEnv_spec vm needsDetach m :
  ∃ env needsDetach' t,
    getJNIEnv vm needsDetach m = Some ((env, needsDetach'), m, t) ∧
    (env = true ↔ env_reachable vm = true) ∧
    (env = true → (needsDetach' = true ↔ In (AttachCurrentThread JNI_OK) t)) ∧
    (env = false → needsDetach' = needsDetach) ∧
    ((∃ st, In (AttachCurrentThread st) t) ↔ r_GetEnv vm = JNI_EDETACHED) ∧
    ¬ In DetachCurrentThread t.
Proof.
  rewrite getJNIEnv_run. unfold env_reachable.
  destruct (Z.eqb_spec (r_GetEnv vm) JNI_OK) as [E1|E1].
  { eexists _, _, _. split; [reflexivity|]. rewrite E1. simpl.
    unfold JNI_OK, JNI_EDETACHED.
    split; [done|]. split.
    { intros _. split; [done|]. intros [F|[]]. discriminate. }
    split; [done|]. split.
    { split; [|done]. intros [st [F|[]]]. discriminate. }
    intros [F|[]]. discriminate. }
  destruct (Z.eqb_spec (r_GetEnv vm) JNI_EDETACHED) as [E2|E2];
    [destruct (Z.eqb_spec (r_AttachCurrentThread vm) JNI_OK) as [E3|E3]|];
    eexists _, _, _; (split; [reflexivity|]); simpl.
  - rewrite E3. split; [done|]. split; [naive_solver|]. split; [done|].
    split; [naive_solver|]. naive_solver.
  - split; [done|]. split; [done|]. split; [done|].
    split; [naive_solver|]. naive_solver.
  - split; [done|]. split; [done|]. split; [done|].
    split; [naive_solver|]. naive_solver.
Qed.

(** X8: on a live context [display_cb] always returns and changes no
    memory. It never hands [NULL] to Java: no call of the sink with a null
    hub, method id or buffer, no [DeleteLocalRef] of a null reference. A
    byte buffer that was created is passed to the sink once and its local
    reference deleted before the call returns; no frame is delivered more
    than once. *)
Theorem display_cb_never_passes_null vm opaque m ctx :
  contexts m !! opaque = Some ctx → opaque ≠ 0 →
  ∃ t, display_cb vm opaque m = Some (tt, m, t) ∧
       Forall (λ e, passes_null e = false) t ∧
       (deliveries t ≤ 1)%nat ∧
       (∀ data capacity buf,
          In (NewDirectByteBuffer data capacity buf) t → buf ≠ 0 →
          deliveries t = 1%nat ∧
          ∃ t1 t2, t = t1 ++ [NewDirectByteBuffer data capacity buf;
                              CallVoidMethod (frameHub ctx) (onFrameMethod ctx) buf
                                (actualWidth ctx) (actualHeight ctx);
                              DeleteLocalRef buf] ++ t2).
Proof.
  intros Hl Ho.
  destruct (decide (frameHub ctx = 0)) as [Hh|Hh].
  { exists []. split.
    - unfold display_cb. rewrite (null_false _ Ho).
      rewrite (run_load_ctx_bind _ _ _ _ Hl). unfold null. by rewrite Hh.
    - split; [constructor|]. split; [unfold deliveries; simpl; lia|]. by intros * []. }
  rewrite (display_cb_unfold _ _ _ _ Hl Ho Hh).
  assert (∀ x, x ≠ 0 → (x =? 0) = false) as Hne by (intros; by apply Z.eqb_neq).
  cbv zeta.
  display_cases vm ctx; eexists; (split; [reflexivity|]);
    (split; [repeat constructor; simpl; rewrite ?Hne by done; done|]);
    (split; [unfold deliveries; simpl; lia|]);
    intros data capacity buf Hin Hbuf; simpl in Hin;
    repeat (destruct Hin as [Hin|Hin]; try discriminate; try done);
    injection Hin as <- <- <-; try done.
  - split; [done|]. by exists [GetEnv (r_GetEnv vm)], [].
  - split; [done|].
    by exists [GetEnv (r_GetEnv vm); AttachCurrentThread (r_AttachCurrentThread vm)],
              [DetachCurrentThread].
Qed.

Lemma display_cb_never_passes_null_witness :
  ∃ t, display_cb demo_vm 1 demo_memory = Some (tt, demo_memory, t) ∧
       Forall (λ e, passes_null e = false) t ∧
       (deliveries t ≤ 1)%nat.
Proof.
  assert (1 ≠ 0) as Ho by lia.
  destruct (display_cb_never_passes_null demo_vm 1 demo_memory demo_ctx demo_ctx_live Ho)
    as (t & Hrun & Hnull & Hone & _).
  exists t. split; [exact Hrun|]. split; [exact Hnull | exact Hone].
Defined.

(** ** Tearing one player down *)

(** X9: on a live context [destroyPlayerContext] frees that context and
    nothing else: every other context and every registry is as before,
    and the only delete is of that context. It never hands [NULL] to
    LibVLC or JNI: a context without a player is freed without stop or
    release, one without a hub reference without [DeleteGlobalRef]. With a
    player, the release of the player follows its stop. *)
Theorem destroyPlayerContext_frees_one p c m :
  p ≠ 0 → contexts m !! p = Some c →
  ∃ m' t,
    destroyPlayerContext p m = Some (tt, m', t) ∧
    contexts m' !! p = None ∧
    (∀ q, q ≠ p → contexts m' !! q = contexts m !! q) ∧
    globals m' = globals m ∧
    Forall (λ e, passes_null e = false) t ∧
    (∀ q, In (Delete_PlayerContext q) t → q = p) ∧
    (mp c = 0 → ∀ x, ¬ In (libvlc_media_player_stop x) t ∧
                     ¬ In (libvlc_media_player_release x) t) ∧
    (frameHub c = 0 → ∀ r, ¬ In (DeleteGlobalRef r) t) ∧
    (mp c ≠ 0 → ∃ t', t = libvlc_media_player_stop (mp c) ::
                          libvlc_media_player_release (mp c) :: t').
Proof.
  intros Hp Hc. rewrite (destroyPlayerContext_run _ _ _ Hp Hc).
  eexists _, _. split; [reflexivity|]. simpl.
  split; [apply lookup_delete_eq|].
  split; [by intros q Hq; apply lookup_delete_ne|].
  split; [done|].
  unfold destroy_events, nonnull.
  destruct (Z.eqb_spec (mp c) 0) as [Emp|Emp],
           (Z.eqb_spec (frameHub c) 0) as [Ehub|Ehub]; simpl;
    (split; [repeat constructor; simpl; by apply Z.eqb_neq|]);
    (split; [intros q Hq; repeat (destruct Hq as [Hq|Hq]; try discriminate; try done);
             by injection Hq|]);
    (split; [intros E; try done; intros x; split; intros H;
             repeat (destruct H as [H|H]; try discriminate; try done)|]);
    (split; [intros E; try done; intros r H;
             repeat (destruct H as [H|H]; try discriminate; try done)|]);
    intros E; try done; eauto.
Qed.

Lemma destroyPlayerContext_frees_one_witness :
  ∃ m' t,
    destroyPlayerContext 1 demo_memory = Some (tt, m', t) ∧
    contexts m' !! 1 = None ∧
    globals m' = globals demo_memory ∧
    Forall (λ e, passes_null e = false) t.
Proof.
  assert (1 ≠ 0) as Hp by lia.
  destruct (destroyPlayerContext_frees_one 1 demo_ctx demo_memory Hp demo_ctx_live)
    as (m' & t & Hrun & Hfreed & _ & Hglob & Hnull & _).
  exists m', t. split; [exact Hrun|]. split; [exact Hfreed|].
  split; [exact Hglob | exact Hnull].
Defined.

(** ** Creating and releasing a registry *)

Lemma set_globals_id m : set_globals (globals m) m = m.
Proof. by destruct m. Qed.

Lemma set_players_id g : set_players (players g) g = g.
Proof. by destruct g. Qed.

(** What [nativeCreateVLC] does, by the answer of [libvlc_new]. *)
Lemma nativeCreateVLC_run engine args m :
  nativeCreateVLC engine args m =
    let h := fresh ({[0]} ∪ dom (globals m)) in
    if null (r_libvlc_new engine) then
      Some (0, m,
            [New_GlobalContext h; libvlc_new args (r_libvlc_new engine)] ++
            map DeleteLocalRef_jstring args ++ [Delete_GlobalContext h])
    else
      Some (h,
            set_globals (<[h := mkGlobalContext (r_libvlc_new engine) ∅]> (globals m)) m,
            [New_GlobalContext h; libvlc_new args (r_libvlc_new engine)] ++
            map DeleteLocalRef_jstring args).
Proof.
  destruct (fresh_handle (globals m)) as [Hh Hfree]. cbv zeta.
  unfold nativeCreateVLC.
  set (h := fresh ({[0]} ∪ dom (globals m))) in *.
  change ((new_global ≫= _) m) with
    (after [New_GlobalContext h]
       ((emit (libvlc_new args (r_libvlc_new engine));;
         modify_global h (set_vlc (r_libvlc_new engine));;
         for_each args (λ string, emit (DeleteLocalRef_jstring string));;
         if null (r_libvlc_new engine) then delete_global h;; mret 0 else mret h)
          (set_globals (<[h := mkGlobalContext 0 ∅]> (globals m)) m))).
  rewrite run_emit_bind.
  erewrite run_modify_global_bind by cmd_live. mem_norm.
  rewrite (run_bind_Some _ _ _ _ _ _ (for_each_emit DeleteLocalRef_jstring args _)).
  destruct (null (r_libvlc_new engine)).
  - erewrite run_bind_Some; [|eapply run_delete_global; cmd_live].
    mem_norm. rewrite (delete_insert_id _ _ _ Hfree), run_ret. simpl.
    by destruct m.
  - rewrite run_ret. simpl. by rewrite app_nil_r.
Qed.

(** X10: when [libvlc_new] fails, [nativeCreateVLC] returns the null
    handle and gives back the registry it had allocated: the memory is
    exactly as before the call. The local references to the argument
    strings are given up, in order, between [libvlc_new] and the delete. *)
Theorem nativeCreateVLC_failure engine args m :
  r_libvlc_new engine = 0 →
  ∃ h, h ≠ 0 ∧ globals m !! h = None ∧
       nativeCreateVLC engine args m =
         Some (0, m,
               [New_GlobalContext h; libvlc_new args 0] ++
               map DeleteLocalRef_jstring args ++ [Delete_GlobalContext h]).
Proof.
  intros E. destruct (fresh_handle (globals m)) as [Hh Hfree].
  exists (fresh ({[0]} ∪ dom (globals m))). split; [done|]. split; [done|].
  rewrite nativeCreateVLC_run. cbv zeta. unfold null. by rewrite E.
Qed.

Lemma nativeCreateVLC_failure_witness :
  ∃ h, nativeCreateVLC (mkLibVLC 0 200 301 0) ["--no-audio"] demo_memory =
         Some (0, demo_memory,
               [New_GlobalContext h; libvlc_new ["--no-audio"] 0;
                DeleteLocalRef_jstring "--no-audio"; Delete_GlobalContext h]).
Proof.
  destruct (nativeCreateVLC_failure (mkLibVLC 0 200 301 0) ["--no-audio"] demo_memory
              eq_refl) as (h & _ & _ & Hrun).
  exists h. exact Hrun.
Defined.

(** X11: when [libvlc_new] succeeds, [nativeCreateVLC] returns a handle
    that is not null and was not in use, to a registry holding the new
    instance and no stream; the registry is well formed, every other
    registry and every context is untouched, and releasing any stream on
    the new handle returns false. After [libvlc_new] the local references
    to the argument strings are given up, in order. *)
Theorem nativeCreateVLC_success engine args m :
  r_libvlc_new engine ≠ 0 →
  ∃ h m',
    nativeCreateVLC engine args m =
      Some (h, m',
            [New_GlobalContext h; libvlc_new args (r_libvlc_new engine)] ++
            map DeleteLocalRef_jstring args) ∧
    h ≠ 0 ∧ globals m !! h = None ∧
    globals m' !! h = Some (mkGlobalContext (r_libvlc_new engine) ∅) ∧
    registry_ok m' (mkGlobalContext (r_libvlc_new engine) ∅) ∧
    (∀ h', h' ≠ h → globals m' !! h' = globals m !! h') ∧
    contexts m' = contexts m ∧
    (∀ url, nativeReleaseMedia h url m' = Some (false, m', [])).
Proof.
  intros Hinst. destruct (fresh_handle (globals m)) as [Hh Hfree].
  rewrite nativeCreateVLC_run. cbv zeta. rewrite (null_false _ Hinst).
  set (h := fresh ({[0]} ∪ dom (globals m))) in *.
  eexists h, _. split; [reflexivity|]. simpl.
  split; [done|]. split; [done|]. split; [apply lookup_insert_eq|].
  split; [split; simpl; intros *; by rewrite lookup_empty|].
  split; [by intros h' Hne; apply lookup_insert_ne|]. split; [done|].
  intros url.
  apply (nativeReleaseMedia_absent _ _ _ (mkGlobalContext (r_libvlc_new engine) ∅));
    simpl; [apply lookup_insert_eq|done|done|apply lookup_empty].
Qed.

Lemma nativeCreateVLC_success_witness :
  ∃ h m',
    nativeCreateVLC demo_engine [] demo_memory =
      Some (h, m', [New_GlobalContext h; libvlc_new [] 100]) ∧
    h ≠ 0 ∧ h ≠ 50 ∧
    globals m' !! 50 = Some demo_global ∧
    players_at m' h = ∅.
Proof.
  assert (r_libvlc_new demo_engine ≠ 0) as Hinst by (simpl; lia).
  destruct (nativeCreateVLC_success demo_engine [] demo_memory Hinst)
    as (h & m' & Hrun & Hh & Hfree & Hnew & _ & Hothers & _).
  assert (h ≠ 50) as Hne.
  { intros ->. rewrite demo_global_live in Hfree. discriminate. }
  exists h, m'. split; [exact Hrun|]. split; [exact Hh|]. split; [exact Hne|].
  split.
  - rewrite Hothers by done. exact demo_global_live.
  - unfold players_at. by rewrite Hnew.
Defined.

(** X13: the handle guards. On the null handle, and on a registry whose
    instance is null, [nativeStart] and [nativeReleaseMedia] return false
    without calling anything (no reference is taken on the hub, no context
    allocated) and without changing the memory; [nativeReleaseVLC] on the
    null handle does nothing. *)
Theorem entry_points_reject_bad_handle vm engine h url hub width height args m :
  h = 0 ∨ (∃ g, globals m !! h = Some g ∧ vlc g = 0) →
  nativeStart vm engine h url hub width height args m = Some (false, m, []) ∧
  nativeReleaseMedia h url m = Some (false, m, []) ∧
  nativeReleaseVLC 0 m = Some (tt, m, []).
Proof.
  intros [->|(g & Hg & Hv)]; [done|].
  unfold nativeStart, nativeReleaseMedia.
  destruct (null h); [done|].
  rewrite !(run_load_global_bind _ _ _ _ Hg). unfold null. by rewrite Hv.
Qed.

Lemma entry_points_reject_bad_handle_witness :
  nativeStart demo_vm demo_engine 0 demo_url 77 320 240 None demo_memory =
    Some (false, demo_memory, []) ∧
  nativeReleaseMedia 0 demo_url demo_memory = Some (false, demo_memory, []) ∧
  nativeReleaseVLC 0 demo_memory = Some (tt, demo_memory, []).
Proof.
  apply entry_points_reject_bad_handle. left. reflexivity.
Defined.

(** ** Starting and releasing one stream among others *)

Lemma open_events_no_delete vm engine inst url hub p q :
  ¬ In (Delete_PlayerContext q) (open_events vm engine inst url hub p).
Proof. unfold open_events. simpl. intuition discriminate. Qed.

Lemma play_events_no_delete engine args p q :
  ¬ In (Delete_PlayerContext q) (play_events engine args p).
Proof.
  unfold play_events. rewrite in_app_iff. intros [H|H].
  - destruct args as [opts|]; [|done].
    unfold option_events in H.
    apply in_flat_map in H as (opt & _ & [E|[E|[]]]); discriminate.
  - simpl in H. intuition discriminate.
Qed.

(** Where a start ends, whether or not the stream was registered: the
    memory and the deletes, by the outcome. *)
Lemma nativeStart_outcome vm engine h url hub width height args m g :
  globals m !! h = Some g → h ≠ 0 → vlc g ≠ 0 → registry_ok m g →
  let cs1 := match players g !! url with
             | Some p => delete p (contexts m)
             | None => contexts m
             end in
  let p' := fresh ({[0]} ∪ dom cs1) in
  ∃ t,
    nativeStart vm engine h url hub width height args m =
      Some (if nonnull (r_media_new_location engine) && (r_media_player_play engine =? 0)
            then (true,
                  mkMemory (<[h := set_players (<[url := p']> (players g)) g]> (globals m))
                           (<[p' := new_context vm engine width height]> cs1),
                  t)
            else (false,
                  mkMemory (<[h := set_players (delete url (players g)) g]> (globals m))
                           cs1,
                  t)) ∧
    p' ≠ 0 ∧ cs1 !! p' = None ∧
    (∀ q, In (Delete_PlayerContext q) t → q = p' ∨ players g !! url = Some q).
Proof.
  intros Hg Hh Hv [Hlive Hinj]. cbv zeta.
  assert (∀ m0 g0 t0,
    globals m0 !! h = Some g0 → vlc g0 = vlc g → players g0 !! url = None →
    ∃ t,
      after t0 (nativeStart vm engine h url hub width height args m0) =
        Some (if nonnull (r_media_new_location engine) &&
                 (r_media_player_play engine =? 0)
              then (true,
                    mkMemory (<[h := set_players (<[url := fresh ({[0]} ∪ dom (contexts m0))]>
                                                    (players g0)) g0]> (globals m0))
                             (<[fresh ({[0]} ∪ dom (contexts m0)) :=
                                  new_context vm engine width height]> (contexts m0)),
                    t)
              else (false, m0, t)) ∧
      (∀ q, In (Delete_PlayerContext q) t →
            q = fresh ({[0]} ∪ dom (contexts m0)) ∨ In (Delete_PlayerContext q) t0))
    as Hfresh.
  { intros m0 g0 t0 Hg0 Hv0 Hu0.
    assert (vlc g0 ≠ 0) as Hv0' by congruence.
    rewrite (nativeStart_fresh _ _ _ _ _ _ _ _ _ _ Hg0 Hh Hv0' Hu0). cbv zeta.
    unfold nonnull, null.
    destruct (r_media_new_location engine =? 0); cbn [negb andb].
    - eexists. split; [reflexivity|]. intros q. rewrite !in_app_iff.
      intros [H|[H|H]]; [by right| |].
      + by apply open_events_no_delete in H.
      + left. destruct H as [H|[]]. by injection H.
    - destruct (r_media_player_play engine =? 0); cbn [negb andb].
      + eexists. split; [reflexivity|]. intros q. rewrite !in_app_iff.
        intros [H|[H|H]]; [by right| |].
        * by apply open_events_no_delete in H.
        * by apply play_events_no_delete in H.
      + eexists. split; [reflexivity|]. intros q. rewrite !in_app_iff.
        intros [H|[H|[H|H]]]; [by right| | |].
        * by apply open_events_no_delete in H.
        * by apply play_events_no_delete in H.
        * left. by apply destroy_events_delete_inv in H. }
  destruct (players g !! url) as [p|] eqn:Hu.
  - destruct (Hlive _ _ Hu) as (Hp & c & Hc & Hmp).
    rewrite (nativeStart_restart _ _ _ _ _ _ _ _ _ _ _ _ Hg Hh Hv Hu Hp Hc).
    set (g1 := set_players (delete url (players g)) g).
    destruct (Hfresh (mkMemory (<[h := g1]> (globals m)) (delete p (contexts m))) g1
                (destroy_events p c)) as (t & Hrun & Hdel);
      [apply lookup_insert_eq|done|apply lookup_delete_eq|].
    exists t. rewrite Hrun. cbn [contexts globals players g1 set_players].
    rewrite insert_insert_eq, insert_delete_eq.
    split; [done|].
    destruct (fresh_address (delete p (contexts m))) as [H0 Hfree].
    split; [done|]. split; [done|].
    intros q Hq. destruct (Hdel q Hq) as [->|Hin]; [by left|].
    right. by rewrite (destroy_events_delete_inv _ _ _ Hin).
  - destruct (Hfresh m g [] Hg eq_refl Hu) as (t & Hrun & Hdel).
    rewrite after_nil in Hrun. exists t. rewrite Hrun.
    rewrite (delete_id _ _ Hu), set_players_id, (insert_id _ _ _ Hg).
    destruct (fresh_address (contexts m)) as [H0 Hfree].
    split; [by destruct m|]. split; [done|]. split; [done|].
    intros q Hq. destruct (Hdel q Hq) as [->|[]]. by left.
Qed.

(** X14: a successful start of a stream that is not registered. The
    recorded calls are, in this order: the new context, the reference on
    the hub, the method lookup, the media, then for every media option in
    the order given (none for a null array) [libvlc_media_add_option]
    followed by [DeleteLocalRef] on the option string, then the player,
    the release of the media, the two callback registrations with the new
    context as [opaque], and play. The map gains exactly this stream,
    bound to the address that was handed to the engine; the context there
    holds the reference, the method id, the player, the requested
    dimensions and an empty buffer; no other context changes. *)
Theorem nativeStart_registers vm engine h url hub width height args m g :
  globals m !! h = Some g → h ≠ 0 → vlc g ≠ 0 → players g !! url = None →
  r_media_new_location engine ≠ 0 → r_media_player_play engine = 0 →
  ∃ p m',
    nativeStart vm engine h url hub width height args m =
      Some (true, m',
            [New_PlayerContext p;
             NewGlobalRef hub (r_NewGlobalRef vm);
             GetObjectClass hub;
             GetMethodID hub "onRawFrame" "(Ljava/nio/ByteBuffer;II)V" (r_GetMethodID vm);
             libvlc_media_new_location (vlc g) url (r_media_new_location engine)] ++
            option_events (r_media_new_location engine) (default [] args) ++
            [libvlc_media_player_new_from_media (r_media_new_location engine)
               (r_media_player_new_from_media engine);
             libvlc_media_release (r_media_new_location engine);
             libvlc_video_set_callbacks (r_media_player_new_from_media engine) p;
             libvlc_video_set_format_callbacks (r_media_player_new_from_media engine);
             libvlc_media_player_play (r_media_player_new_from_media engine) 0]) ∧
    p ≠ 0 ∧ contexts m !! p = None ∧
    players_at m' h = <[url := p]> (players g) ∧
    size (players_at m' h) = S (size (players g)) ∧
    contexts m' !! p =
      Some (mkPlayerContext (r_NewGlobalRef vm) (r_GetMethodID vm)
              (r_media_player_new_from_media engine) [] width height) ∧
    (∀ q, q ≠ p → contexts m' !! q = contexts m !! q).
Proof.
  intros Hg Hh Hv Hu Em Ep.
  rewrite (nativeStart_fresh _ _ _ _ _ _ _ _ _ _ Hg Hh Hv Hu). cbv zeta.
  rewrite (null_false _ Em), Ep. cbn [Z.eqb negb].
  destruct (fresh_address (contexts m)) as [H0 Hfree].
  set (p := fresh ({[0]} ∪ dom (contexts m))) in *.
  eexists p, _. split.
  { unfold open_events, play_events. rewrite Ep. by destruct args. }
  split; [done|]. split; [done|].
  unfold players_at. cbn [globals contexts]. rewrite lookup_insert_eq.
  cbn [players set_players].
  split; [done|]. split; [by apply map_size_insert_None|].
  split; [apply lookup_insert_eq|].
  intros q Hq. by apply lookup_insert_ne.
Qed.

Lemma nativeStart_registers_witness :
  ∃ p m',
    nativeStart demo_vm demo_engine 50 "rtsp://camera/2" 77 0 0
      (Some ["--no-audio"; ":network-caching=150"]) demo_memory =
      Some (true, m',
            [New_PlayerContext p; NewGlobalRef 77 7; GetObjectClass 77;
             GetMethodID 77 "onRawFrame" "(Ljava/nio/ByteBuffer;II)V" 8;
             libvlc_media_new_location 100 "rtsp://camera/2" 200;
             libvlc_media_add_option 200 "--no-audio";
             DeleteLocalRef_jstring "--no-audio";
             libvlc_media_add_option 200 ":network-caching=150";
             DeleteLocalRef_jstring ":network-caching=150";
             libvlc_media_player_new_from_media 200 301;
             libvlc_media_release 200;
             libvlc_video_set_callbacks 301 p;
             libvlc_video_set_format_callbacks 301;
             libvlc_media_player_play 301 0]) ∧
    players_at m' 50 !! "rtsp://camera/2" = Some p ∧
    players_at m' 50 !! demo_url = Some 1.
Proof.
  assert (50 ≠ 0) as Hh by lia.
  assert (vlc demo_global ≠ 0) as Hv by (simpl; lia).
  assert (players demo_global !! "rtsp://camera/2" = None) as Hu by reflexivity.
  assert (r_media_new_location demo_engine ≠ 0) as Em by (simpl; lia).
  destruct (nativeStart_registers demo_vm demo_engine 50 "rtsp://camera/2" 77 0 0
              (Some ["--no-audio"; ":network-caching=150"]) demo_memory demo_global
              demo_global_live Hh Hv Hu Em eq_refl)
    as (p & m' & Hrun & _ & _ & Hmap & _).
  exists p, m'. split; [exact Hrun|]. rewrite Hmap. split.
  - apply lookup_insert_eq.
  - rewrite lookup_insert_ne by done. exact demo_stream_registered.
Defined.

(** X15: a start touches no other stream of a well-formed registry.
    Whatever its outcome, every other registered stream is still bound to
    the same context, that context is unchanged and is not deleted by the
    call, and every other registry is as before. *)
Theorem nativeStart_leaves_other_streams vm engine h url hub width height args m g :
  globals m !! h = Some g → h ≠ 0 → vlc g ≠ 0 → registry_ok m g →
  ∃ b m' t,
    nativeStart vm engine h url hub width height args m = Some (b, m', t) ∧
    (∀ url' p', url' ≠ url → players g !! url' = Some p' →
       players_at m' h !! url' = Some p' ∧
       contexts m' !! p' = contexts m !! p' ∧
       ¬ In (Delete_PlayerContext p') t) ∧
    (∀ h', h' ≠ h → globals m' !! h' = globals m !! h').
Proof.
  intros Hg Hh Hv Hok.
  destruct (nativeStart_outcome vm engine h url hub width height args m g Hg Hh Hv Hok)
    as (t & Hrun & Hp0 & Hpfree & Hdel).
  destruct Hok as [Hlive Hinj].
  set (cs1 := match players g !! url with
              | Some p => delete p (contexts m)
              | None => contexts m
              end) in *.
  set (p' := fresh ({[0]} ∪ dom cs1)) in *.
  assert (∀ url0 p0, url0 ≠ url → players g !! url0 = Some p0 →
            cs1 !! p0 = contexts m !! p0 ∧ p0 ≠ p' ∧ players g !! url ≠ Some p0) as Hother.
  { intros url0 p0 Hne Hu0.
    destruct (Hlive _ _ Hu0) as (_ & c0 & Hc0 & _).
    assert (players g !! url ≠ Some p0) as Hnot.
    { intros Hu. apply Hne. by apply (Hinj url0 url p0). }
    assert (cs1 !! p0 = contexts m !! p0) as Hsame.
    { unfold cs1. destruct (players g !! url) as [p|]; [|done].
      apply lookup_delete_ne. congruence. }
    split; [done|]. split; [|done]. intros ->. congruence. }
  destruct (nonnull (r_media_new_location engine) && (r_media_player_play engine =? 0));
    eexists _, _, t; (split; [exact Hrun|]); (split; [|by intros; apply lookup_insert_ne]);
    intros url0 p0 Hne Hu0; destruct (Hother _ _ Hne Hu0) as (Hsame & Hnp & Hnot);
    unfold players_at; cbn [globals contexts]; rewrite lookup_insert_eq;
    cbn [players set_players].
  - rewrite lookup_insert_ne by done. split; [done|].
    rewrite lookup_insert_ne by done. split; [done|].
    intros Hin. destruct (Hdel _ Hin); done.
  - rewrite lookup_delete_ne by done. split; [done|]. split; [done|].
    intros Hin. destruct (Hdel _ Hin); done.
Qed.

Lemma two_streams_ok :
  registry_ok
    (mkMemory {[ 50 := mkGlobalContext 100 {[ "a" := 1; "b" := 2 ]} ]}
              {[ 1 := demo_ctx; 2 := mkPlayerContext 15 6 310 [] 0 0 ]})
    (mkGlobalContext 100 {[ "a" := 1; "b" := 2 ]}).
Proof.
  split; cbn [players contexts].
  - intros url p [[<- <-]|[_ [<- <-]%lookup_singleton_Some]]%lookup_insert_Some;
      (split; [done|]); eexists; (split; [reflexivity|done]).
  - intros url1 url2 p
      [[<- <-]|[_ [<- <-]%lookup_singleton_Some]]%lookup_insert_Some
      [[<- E]|[_ [<- E]%lookup_singleton_Some]]%lookup_insert_Some; done.
Qed.

Lemma nativeStart_leaves_other_streams_witness :
  ∃ b m' t,
    nativeStart demo_vm demo_engine 50 "a" 77 320 240 None
      (mkMemory {[ 50 := mkGlobalContext 100 {[ "a" := 1; "b" := 2 ]} ]}
                {[ 1 := demo_ctx; 2 := mkPlayerContext 15 6 310 [] 0 0 ]})
      = Some (b, m', t) ∧
    players_at m' 50 !! "b" = Some 2 ∧
    contexts m' !! 2 = Some (mkPlayerContext 15 6 310 [] 0 0) ∧
    ¬ In (Delete_PlayerContext 2) t.
Proof.
  set (g := mkGlobalContext 100 {[ "a" := 1; "b" := 2 ]}).
  set (m := mkMemory {[ 50 := g ]} {[ 1 := demo_ctx; 2 := mkPlayerContext 15 6 310 [] 0 0 ]}).
  assert (globals m !! 50 = Some g) as Hg by reflexivity.
  assert (50 ≠ 0) as Hh by lia.
  assert (vlc g ≠ 0) as Hv by (simpl; lia).
  destruct (nativeStart_leaves_other_streams demo_vm demo_engine 50 "a" 77 320 240 None
              m g Hg Hh Hv two_streams_ok)
    as (b & m' & t & Hrun & Hothers & _).
  assert ("b" ≠ "a") as Hne by discriminate.
  assert (players g !! "b" = Some 2) as Hb by reflexivity.
  destruct (Hothers "b" 2 Hne Hb) as (Hmap & Hctx & Hdel).
  exists b, m', t. split; [exact Hrun|]. split; [exact Hmap|].
  split; [|exact Hdel]. rewrite Hctx. reflexivity.
Defined.

(** X16: when playback fails to begin for a stream that is not registered,
    [nativeStart] returns false with the memory exactly as before, and
    what it created it gives back, after the failed play and in this
    order: the player is stopped and released, the reference on the hub
    deleted, the context freed. The media was released once, before
    play. *)
Theorem nativeStart_play_failure_gives_back vm engine h url hub width height args m g :
  globals m !! h = Some g → h ≠ 0 → vlc g ≠ 0 → players g !! url = None →
  r_media_new_location engine ≠ 0 → r_media_player_play engine ≠ 0 →
  r_NewGlobalRef vm ≠ 0 → r_media_player_new_from_media engine ≠ 0 →
  ∃ p,
    p ≠ 0 ∧ contexts m !! p = None ∧
    nativeStart vm engine h url hub width height args m =
      Some (false, m,
            [New_PlayerContext p;
             NewGlobalRef hub (r_NewGlobalRef vm);
             GetObjectClass hub;
             GetMethodID hub "onRawFrame" "(Ljava/nio/ByteBuffer;II)V" (r_GetMethodID vm);
             libvlc_media_new_location (vlc g) url (r_media_new_location engine)] ++
            option_events (r_media_new_location engine) (default [] args) ++
            [libvlc_media_player_new_from_media (r_media_new_location engine)
               (r_media_player_new_from_media engine);
             libvlc_media_release (r_media_new_location engine);
             libvlc_video_set_callbacks (r_media_player_new_from_media engine) p;
             libvlc_video_set_format_callbacks (r_media_player_new_from_media engine);
             libvlc_media_player_play (r_media_player_new_from_media engine)
               (r_media_player_play engine);
             libvlc_media_player_stop (r_media_player_new_from_media engine);
             libvlc_media_player_release (r_media_player_new_from_media engine);
             DeleteGlobalRef (r_NewGlobalRef vm);
             Delete_PlayerContext p]).
Proof.
  intros Hg Hh Hv Hu Em Ep Href Hmp.
  rewrite (nativeStart_fresh _ _ _ _ _ _ _ _ _ _ Hg Hh Hv Hu). cbv zeta.
  rewrite (null_false _ Em).
  destruct (Z.eqb_spec (r_media_player_play engine) 0) as [|_]; [done|]. cbn [negb].
  destruct (fresh_address (contexts m)) as [H0 Hfree].
  eexists. split; [exact H0|]. split; [exact Hfree|].
  unfold open_events, play_events, destroy_events, new_context. cbn [mp frameHub].
  rewrite (nonnull_true _ Href), (nonnull_true _ Hmp).
  destruct args; simpl; by rewrite <- ?app_assoc.
Qed.

Lemma nativeStart_play_failure_gives_back_witness :
  ∃ p,
    nativeStart demo_vm no_play_engine 50 demo_url 77 0 0 None empty_memory =
      Some (false, empty_memory,
            [New_PlayerContext p; NewGlobalRef 77 7; GetObjectClass 77;
             GetMethodID 77 "onRawFrame" "(Ljava/nio/ByteBuffer;II)V" 8;
             libvlc_media_new_location 100 demo_url 200;
             libvlc_media_player_new_from_media 200 301;
             libvlc_media_release 200;
             libvlc_video_set_callbacks 301 p;
             libvlc_video_set_format_callbacks 301;
             libvlc_media_player_play 301 (-1);
             libvlc_media_player_stop 301;
             libvlc_media_player_release 301;
             DeleteGlobalRef 7;
             Delete_PlayerContext p]).
Proof.
  assert (globals empty_memory !! 50 = Some (mkGlobalContext 100 ∅)) as Hg by reflexivity.
  assert (50 ≠ 0) as Hh by lia.
  assert (vlc (mkGlobalContext 100 ∅) ≠ 0) as Hv by (simpl; lia).
  assert (players (mkGlobalContext 100 ∅) !! demo_url = None) as Hu by reflexivity.
  assert (r_media_new_location no_play_engine ≠ 0) as Em by (simpl; lia).
  assert (r_media_player_play no_play_engine ≠ 0) as Ep by (simpl; lia).
  assert (r_NewGlobalRef demo_vm ≠ 0) as Href by (simpl; lia).
  assert (r_media_player_new_from_media no_play_engine ≠ 0) as Hmp by (simpl; lia).
  destruct (nativeStart_play_failure_gives_back demo_vm no_play_engine 50 demo_url 77 0 0
              None empty_memory _ Hg Hh Hv Hu Em Ep Href Hmp)
    as (p & _ & _ & Hrun).
  exists p. exact Hrun.
Defined.

(** X17: dimensions forced at [nativeStart] are the dimensions negotiated.
    After a successful start with a positive width and height, on a stream
    registered or not, every format negotiation on the registered context
    returns exactly that width and height, whatever the engine proposes. *)
Theorem nativeStart_forced_size_is_negotiated
    vm engine h url hub width height args m g :
  globals m !! h = Some g → h ≠ 0 → vlc g ≠ 0 → registry_ok m g →
  r_media_new_location engine ≠ 0 → r_media_player_play engine = 0 →
  0 < width < Int32.half_modulus → 0 < height < Int32.half_modulus →
  ∃ p m1 t,
    nativeStart vm engine h url hub width height args m = Some (true, m1, t) ∧
    players_at m1 h !! url = Some p ∧
    ∀ can_allocate width' height',
      ∃ reply m2,
        format_setup_cb can_allocate p width' height' m1 = Some (reply, m2, []) ∧
        fmt_width reply = width ∧ fmt_height reply = height.
Proof.
  intros Hg Hh Hv Hok Em Ep Hw Hht.
  destruct (nativeStart_outcome vm engine h url hub width height args m g Hg Hh Hv Hok)
    as (t & Hrun & _).
  rewrite (nonnull_true _ Em), Ep in Hrun. cbn [Z.eqb andb] in Hrun.
  eexists _, _, t. split; [exact Hrun|].
  unfold players_at. cbn [globals]. rewrite lookup_insert_eq. cbn [players set_players].
  split; [apply lookup_insert_eq|].
  intros can_allocate width' height'.
  set (m1 := mkMemory _ _).
  assert (contexts m1 !! fresh ({[0]} ∪ dom
            match players g !! url with
            | Some p => delete p (contexts m)
            | None => contexts m
            end) = Some (new_context vm engine width height)) as Hl
    by apply lookup_insert_eq.
  rewrite (format_setup_cb_run _ _ _ _ _ _ Hl).
  pose proof (format_setup_forced can_allocate (new_context vm engine width height)
                width' height') as H.
  destruct (format_setup can_allocate _ width' height') as [ctx' reply].
  cbn [new_context actualWidth actualHeight] in H.
  destruct H as (H1 & H2 & _); try lia;
    try (unfold Int32.is_int, Int32.half_modulus in *; lia).
  eexists reply, _. split; [reflexivity|]. done.
Qed.

Lemma nativeStart_forced_size_is_negotiated_witness :
  ∃ p m1 t reply m2,
    nativeStart demo_vm demo_engine 50 demo_url 77 320 240 None demo_memory =
      Some (true, m1, t) ∧
    players_at m1 50 !! demo_url = Some p ∧
    format_setup_cb (λ _, true) p 1920 1080 m1 = Some (reply, m2, []) ∧
    fmt_width reply = 320 ∧ fmt_height reply = 240.
Proof.
  assert (50 ≠ 0) as Hh by lia.
  assert (vlc demo_global ≠ 0) as Hv by (simpl; lia).
  assert (r_media_new_location demo_engine ≠ 0) as Em by (simpl; lia).
  assert (0 < 320 < Int32.half_modulus) as Hw by (unfold Int32.half_modulus; simpl; lia).
  assert (0 < 240 < Int32.half_modulus) as Hht by (unfold Int32.half_modulus; simpl; lia).
  destruct (nativeStart_forced_size_is_negotiated demo_vm demo_engine 50 demo_url 77
              320 240 None demo_memory demo_global
              demo_global_live Hh Hv demo_registry_ok Em eq_refl Hw Hht)
    as (p & m1 & t & Hrun & Hmap & Hneg).
  destruct (Hneg (λ _, true) 1920 1080) as (reply & m2 & Hfmt & H1 & H2).
  exists p, m1, t, reply, m2. split; [exact Hrun|]. split; [exact Hmap|].
  split; [exact Hfmt|]. split; [exact H1 | exact H2].
Defined.

(** X18: a release touches no other stream of a well-formed registry.
    Whether or not the stream was registered, every other registered
    stream is still bound to the same context, that context is unchanged
    and is not deleted by the call, and every other registry is as
    before. *)
Theorem nativeReleaseMedia_leaves_other_streams h url m g :
  globals m !! h = Some g → h ≠ 0 → vlc g ≠ 0 → registry_ok m g →
  ∃ b m' t,
    nativeReleaseMedia h url m = Some (b, m', t) ∧
    (b = true ↔ is_Some (players g !! url)) ∧
    (∀ url' p', url' ≠ url → players g !! url' = Some p' →
       players_at m' h !! url' = Some p' ∧
       contexts m' !! p' = contexts m !! p' ∧
       ¬ In (Delete_PlayerContext p') t) ∧
    (∀ h', h' ≠ h → globals m' !! h' = globals m !! h').
Proof.
  intros Hg Hh Hv [Hlive Hinj].
  destruct (players g !! url) as [p|] eqn:Hu.
  - destruct (Hlive _ _ Hu) as (Hp & c & Hc & Hmp).
    rewrite (nativeReleaseMedia_present _ _ _ _ _ _ Hg Hh Hv Hu Hp Hc).
    eexists _, _, _. split; [reflexivity|]. split; [by split; eauto|].
    split; [|by intros; apply lookup_insert_ne].
    intros url' p' Hne Hu'.
    assert (p' ≠ p) as Hpp.
    { intros ->. apply Hne. by apply (Hinj url' url p). }
    unfold players_at. cbn [globals contexts]. rewrite lookup_insert_eq.
    cbn [players set_players]. rewrite lookup_delete_ne by done.
    split; [done|]. split; [by apply lookup_delete_ne|].
    intros Hin%destroy_events_delete_inv. done.
  - rewrite (nativeReleaseMedia_absent _ _ _ _ Hg Hh Hv Hu).
    eexists _, _, _. split; [reflexivity|].
    split; [split; [done|by intros []]|].
    split; [|done]. intros url' p' Hne Hu'.
    unfold players_at. rewrite Hg. split; [done|]. split; [done|]. by intros [].
Qed.

Lemma nativeReleaseMedia_leaves_other_streams_witness :
  ∃ m' t,
    nativeReleaseMedia 50 "a"
      (mkMemory {[ 50 := mkGlobalContext 100 {[ "a" := 1; "b" := 2 ]} ]}
                {[ 1 := demo_ctx; 2 := mkPlayerContext 15 6 310 [] 0 0 ]})
      = Some (true, m', t) ∧
    players_at m' 50 !! "b" = Some 2 ∧
    contexts m' !! 2 = Some (mkPlayerContext 15 6 310 [] 0 0) ∧
    ¬ In (Delete_PlayerContext 2) t.
Proof.
  set (g := mkGlobalContext 100 {[ "a" := 1; "b" := 2 ]}).
  set (m := mkMemory {[ 50 := g ]} {[ 1 := demo_ctx; 2 := mkPlayerContext 15 6 310 [] 0 0 ]}).
  assert (globals m !! 50 = Some g) as Hg by reflexivity.
  assert (50 ≠ 0) as Hh by lia.
  assert (vlc g ≠ 0) as Hv by (simpl; lia).
  destruct (nativeReleaseMedia_leaves_other_streams 50 "a" m g Hg Hh Hv two_streams_ok)
    as (b & m' & t & Hrun & Hb & Hothers & _).
  assert (b = true) as -> by (apply Hb; by exists 1).
  assert ("b" ≠ "a") as Hne by discriminate.
  assert (players g !! "b" = Some 2) as Hreg by reflexivity.
  destruct (Hothers "b" 2 Hne Hreg) as (Hmap & Hctx & Hdel).
  exists m', t. split; [exact Hrun|]. split; [exact Hmap|].
  split; [|exact Hdel]. rewrite Hctx. reflexivity.
Defined.

(** X19: starting a stream and releasing it is a round trip. After a
    successful start of a stream that was not registered, releasing it
    returns true, stops and releases the very player the start created,
    deletes the very reference the start took on the hub, frees the
    context the start allocated, and leaves the memory exactly as it was
    before the start. *)
Theorem nativeStart_then_release_restores vm engine h url hub width height args m g :
  globals m !! h = Some g → h ≠ 0 → vlc g ≠ 0 → players g !! url = None →
  r_media_new_location engine ≠ 0 → r_media_player_play engine = 0 →
  r_NewGlobalRef vm ≠ 0 → r_media_player_new_from_media engine ≠ 0 →
  ∃ p m1 t,
    nativeStart vm engine h url hub width height args m = Some (true, m1, t) ∧
    In (New_PlayerContext p) t ∧
    nativeReleaseMedia h url m1 =
      Some (true, m,
            [libvlc_media_player_stop (r_media_player_new_from_media engine);
             libvlc_media_player_release (r_media_player_new_from_media engine);
             DeleteGlobalRef (r_NewGlobalRef vm);
             Delete_PlayerContext p]).
Proof.
  intros Hg Hh Hv Hu Em Ep Href Hmp.
  rewrite (nativeStart_fresh _ _ _ _ _ _ _ _ _ _ Hg Hh Hv Hu). cbv zeta.
  rewrite (null_false _ Em), Ep. cbn [Z.eqb negb].
  destruct (fresh_address (contexts m)) as [H0 Hfree].
  set (p := fresh ({[0]} ∪ dom (contexts m))) in *.
  eexists p, _, _. split; [reflexivity|]. split; [by left|].
  rewrite (nativeReleaseMedia_present h url _
             (set_players (<[url := p]> (players g)) g) p
             (new_context vm engine width height)); cbn [globals contexts players
             set_players vlc]; try done; try apply lookup_insert_eq.
  rewrite insert_insert_eq, (delete_insert_id _ _ _ Hu), (delete_insert_id _ _ _ Hfree).
  change (set_players (players g) (set_players (<[url:=p]> (players g)) g))
    with (set_players (players g) g).
  rewrite set_players_id, (insert_id _ _ _ Hg).
  unfold destroy_events, new_context. cbn [mp frameHub].
  rewrite (nonnull_true _ Href), (nonnull_true _ Hmp). by destruct m.
Qed.

Lemma nativeStart_then_release_restores_witness :
  ∃ p m1 t,
    nativeStart demo_vm demo_engine 50 "rtsp://camera/2" 77 0 0 None demo_memory =
      Some (true, m1, t) ∧
    nativeReleaseMedia 50 "rtsp://camera/2" m1 =
      Some (true, demo_memory,
            [libvlc_media_player_stop 301; libvlc_media_player_release 301;
             DeleteGlobalRef 7; Delete_PlayerContext p]).
Proof.
  assert (50 ≠ 0) as Hh by lia.
  assert (vlc demo_global ≠ 0) as Hv by (simpl; lia).
  assert (players demo_global !! "rtsp://camera/2" = None) as Hu by reflexivity.
  assert (r_media_new_location demo_engine ≠ 0) as Em by (simpl; lia).
  assert (r_NewGlobalRef demo_vm ≠ 0) as Href by (simpl; lia).
  assert (r_media_player_new_from_media demo_engine ≠ 0) as Hmp by (simpl; lia).
  destruct (nativeStart_then_release_restores demo_vm demo_engine 50 "rtsp://camera/2"
              77 0 0 None demo_memory demo_global
              demo_global_live Hh Hv Hu Em eq_refl Href Hmp)
    as (p & m1 & t & Hstart & _ & Hrelease).
  exists p, m1, t. split; [exact Hstart | exact Hrelease].
Defined.

(** ** Releasing everything, and what is left dangling *)



(** X21: nothing in the bridge keeps the engine from calling back on a
    released stream. After [nativeReleaseMedia] of a registered stream its
    context is freed, so [display_cb], [lock_cb] and [format_setup_cb] on
    the address the engine was given at start dereference freed memory:
    they have no defined result. Only [libvlc_media_player_stop], called
    first, stands between a release and such a callback. *)
Theorem callbacks_after_release_undefined h url m g p :
  globals m !! h = Some g → h ≠ 0 → vlc g ≠ 0 → registry_ok m g →
  players g !! url = Some p →
  ∃ m' t,
    nativeReleaseMedia h url m = Some (true, m', t) ∧
    (∃ player t', t = libvlc_media_player_stop player :: t') ∧
    (∀ vm, display_cb vm p m' = None) ∧
    lock_cb p m' = None ∧
    (∀ can_allocate width height, format_setup_cb can_allocate p width height m' = None).
Proof.
  intros Hg Hh Hv [Hlive Hinj] Hu.
  destruct (Hlive _ _ Hu) as (Hp & c & Hc & Hmp).
  rewrite (nativeReleaseMedia_present _ _ _ _ _ _ Hg Hh Hv Hu Hp Hc).
  eexists _, _. split; [reflexivity|].
  split; [rewrite (destroy_events_stop_first _ _ Hmp); by eauto|].
  set (m' := mkMemory _ _).
  assert (contexts m' !! p = None) as Hgone by apply lookup_delete_eq.
  split; [|split].
  - intros vm. unfold display_cb. rewrite (null_false _ Hp).
    rewrite run_bind. unfold load_ctx. by rewrite Hgone.
  - unfold lock_cb. rewrite run_bind. unfold load_ctx. by rewrite Hgone.
  - intros can_allocate width height.
    unfold format_setup_cb. rewrite run_bind. unfold load_ctx. by rewrite Hgone.
Qed.

Lemma callbacks_after_release_undefined_witness :
  ∃ m' t,
    nativeReleaseMedia 50 demo_url demo_memory = Some (true, m', t) ∧
    display_cb demo_vm 1 m' = None.
Proof.
  assert (50 ≠ 0) as Hh by lia.
  assert (vlc demo_global ≠ 0) as Hv by (simpl; lia).
  destruct (callbacks_after_release_undefined 50 demo_url demo_memory demo_global 1
              demo_global_live Hh Hv demo_registry_ok demo_stream_registered)
    as (m' & t & Hrun & _ & Hdisplay & _).
  exists m', t. split; [exact Hrun | exact (Hdisplay demo_vm)].
Defined.



(** ** Whole sessions of a registry *)

(** On a live context [display_cb] always returns, with the memory as it
    was. *)
Lemma display_cb_defined vm opaque m ctx :
  contexts m !! opaque = Some ctx → opaque ≠ 0 →
  ∃ t, display_cb vm opaque m = Some (tt, m, t).
Proof.
  intros Hl Ho.
  destruct (decide (frameHub ctx = 0)) as [Hh|Hh].
  { exists []. unfold display_cb. rewrite (null_false _ Ho).
    rewrite (run_load_ctx_bind _ _ _ _ Hl). unfold null. by rewrite Hh. }
  rewrite (display_cb_unfold _ _ _ _ Hl Ho Hh). cbv zeta.
  display_cases vm ctx; by eexists.
Qed.

Lemma registry_ok_update m g p c c' :
  registry_ok m g → contexts m !! p = Some c → mp c' = mp c →
  registry_ok (set_contexts (<[p := c']> (contexts m)) m) g.
Proof.
  intros [Hlive Hinj] Hc Hmp. split; [|done].
  intros url q Hu. destruct (Hlive _ _ Hu) as (Hq & cq & Hcq & Hmq). split; [done|].
  simpl. destruct (decide (q = p)) as [->|Hne].
  - rewrite lookup_insert_eq. exists c'. split; [done|]. congruence.
  - rewrite lookup_insert_ne by done. eauto.
Qed.

(** One step of a session: it returns, keeps the registry live and well
    formed, leaves the other registries alone, changes no address that is
    registered neither before nor after, frees what it unregisters, and
    registers only what was registered or free. *)
Lemma run_op_step h op m g :
  globals m !! h = Some g → h ≠ 0 → vlc g ≠ 0 → registry_ok m g →
  op_has_player op →
  ∃ m' t g',
    run_op h op m = Some (tt, m', t) ∧
    globals m' !! h = Some g' ∧ vlc g' = vlc g ∧ registry_ok m' g' ∧
    (∀ h', h' ≠ h → globals m' !! h' = globals m !! h') ∧
    (∀ q, (∀ url, players g' !! url ≠ Some q) →
          ((∀ url, players g !! url ≠ Some q) ∧ contexts m' !! q = contexts m !! q) ∨
          ((∃ url, players g !! url = Some q) ∧ contexts m' !! q = None)) ∧
    (∀ url q, players g' !! url = Some q →
              (∃ url0, players g !! url0 = Some q) ∨
              ((∀ url0, players g !! url0 ≠ Some q) ∧ contexts m !! q = None)).
Proof.
  intros Hg Hh Hv Hok Hplayer.
  assert (players_at m h = players g) as Hat by (unfold players_at; by rewrite Hg).
  assert (∀ url (k : Z → Cmd unit),
    (∀ p c, players g !! url = Some p → contexts m !! p = Some c → p ≠ 0 →
            ∃ t c', k p m = Some (tt, set_contexts (<[p := c']> (contexts m)) m, t) ∧
                    mp c' = mp c) →
    ∃ m' t g',
      on_stream h url k m = Some (tt, m', t) ∧
      globals m' !! h = Some g' ∧ vlc g' = vlc g ∧ registry_ok m' g' ∧
      (∀ h', h' ≠ h → globals m' !! h' = globals m !! h') ∧
      (∀ q, (∀ url, players g' !! url ≠ Some q) →
            ((∀ url, players g !! url ≠ Some q) ∧ contexts m' !! q = contexts m !! q) ∨
            ((∃ url, players g !! url = Some q) ∧ contexts m' !! q = None)) ∧
      (∀ url q, players g' !! url = Some q →
                (∃ url0, players g !! url0 = Some q) ∨
                ((∀ url0, players g !! url0 ≠ Some q) ∧ contexts m !! q = None)))
    as Hcallback.
  { intros url k Hk. unfold on_stream. rewrite Hat.
    destruct (players g !! url) as [p|] eqn:Hu.
    - destruct Hok as [Hlive Hinj].
      destruct (Hlive _ _ Hu) as (Hp & c & Hc & Hmp).
      destruct (Hk p c eq_refl Hc Hp) as (t & c' & -> & Hmp').
      eexists _, t, g. split; [reflexivity|]. split; [done|]. split; [done|].
      split; [by apply (registry_ok_update m g p c c')|]. split; [done|].
      split; [|by eauto].
      intros q Hq. left. split; [done|].
      simpl. apply lookup_insert_ne. intros ->. by apply (Hq url).
    - exists m, [], g. split; [done|]. split; [done|]. split; [done|].
      split; [done|]. split; [done|]. split; [by left|by eauto]. }
  destruct op as [vm engine url hub width height args|url|can_allocate url width height
                 |url|url|vm url]; simpl in Hplayer; cbn [run_op].
  - (* start *)
    destruct (nativeStart_outcome vm engine h url hub width height args m g Hg Hh Hv Hok)
      as (t & Hrun & Hp0 & Hpfree & _).
    destruct (nativeStart_preserves_registry vm engine h url hub width height args m g
                Hg Hh Hv Hok Hplayer) as (b & m' & t' & g' & Hrun' & Hg' & Hv' & Hok').
    destruct Hok as [Hlive Hinj].
    set (cs1 := match players g !! url with
                | Some p => delete p (contexts m)
                | None => contexts m
                end) in *.
    set (p' := fresh ({[0]} ∪ dom cs1)) in *.
    assert (∀ q, (players g !! url ≠ Some q ∧ cs1 !! q = contexts m !! q) ∨
                 (players g !! url = Some q ∧ cs1 !! q = None)) as Hcs1.
    { intros q. unfold cs1. destruct (players g !! url) as [p|]; [|by left].
      destruct (decide (q = p)) as [->|Hne].
      - right. split; [done|]. apply lookup_delete_eq.
      - left. split; [congruence|]. by apply lookup_delete_ne. }
    destruct (nonnull (r_media_new_location engine) && (r_media_player_play engine =? 0));
      rewrite Hrun in Hrun'; injection Hrun' as <- <- <-;
      eexists _, (t ++ []), g';
      (split; [by rewrite (run_bind_Some _ _ _ _ _ _ Hrun)|]);
      (split; [done|]); (split; [done|]); (split; [done|]);
      cbn [globals contexts] in *;
      rewrite lookup_insert_eq in Hg'; injection Hg' as <-; cbn [players set_players].
    + split; [by intros; apply lookup_insert_ne|]. split.
      * intros q Hq.
        assert (q ≠ p') as Hne by (intros ->; apply (Hq url); apply lookup_insert_eq).
        rewrite lookup_insert_ne by done.
        destruct (Hcs1 q) as [[Hnu ->]|[Hu ->]]; [|right; by eauto].
        left. split; [|done]. intros url0 Hu0.
        destruct (decide (url0 = url)) as [->|Hnurl]; [done|].
        apply (Hq url0). by rewrite lookup_insert_ne.
      * intros url0 q [[<- <-]|[Hne Hu0]]%lookup_insert_Some; [|by eauto].
        destruct (Hcs1 p') as [[Hnu E]|[Hu _]]; [|by eauto].
        right. split; [|congruence]. intros url0 Hu0.
        destruct (Hlive _ _ Hu0) as (_ & c0 & Hc0 & _). congruence.
    + split; [by intros; apply lookup_insert_ne|]. split.
      * intros q Hq.
        destruct (Hcs1 q) as [[Hnu ->]|[Hu ->]]; [|right; by eauto].
        left. split; [|done]. intros url0 Hu0.
        destruct (decide (url0 = url)) as [->|Hnurl]; [done|].
        apply (Hq url0). by rewrite lookup_delete_ne.
      * intros url0 q [_ Hu0]%lookup_delete_Some. by eauto.
  - (* release *)
    destruct (nativeReleaseMedia_preserves_registry h url m g Hg Hh Hv Hok)
      as (b & m' & t & g' & Hrun & Hg' & Hv' & Hok').
    exists m', (t ++ []), g'. split; [by rewrite (run_bind_Some _ _ _ _ _ _ Hrun)|].
    split; [done|]. split; [done|]. split; [done|].
    destruct Hok as [Hlive Hinj].
    destruct (players g !! url) as [p|] eqn:Hu.
    + destruct (Hlive _ _ Hu) as (Hp & c & Hc & Hmp).
      rewrite (nativeReleaseMedia_present _ _ _ _ _ _ Hg Hh Hv Hu Hp Hc) in Hrun.
      injection Hrun as <- <- <-. cbn [globals contexts] in *.
      rewrite lookup_insert_eq in Hg'. injection Hg' as <-. cbn [players set_players].
      split; [by intros; apply lookup_insert_ne|]. split.
      * intros q Hq. destruct (decide (q = p)) as [->|Hne].
        -- right. split; [by eauto|]. apply lookup_delete_eq.
        -- left. split; [|by apply lookup_delete_ne]. intros url0 Hu0.
           destruct (decide (url0 = url)) as [->|Hnurl]; [congruence|].
           apply (Hq url0). by rewrite lookup_delete_ne.
      * intros url0 q [_ Hu0]%lookup_delete_Some. by eauto.
    + rewrite (nativeReleaseMedia_absent _ _ _ _ Hg Hh Hv Hu) in Hrun.
      injection Hrun as <- <- <-. rewrite Hg in Hg'. injection Hg' as <-.
      split; [done|]. split; [by left|by eauto].
  - (* negotiate *)
    apply Hcallback. intros p c Hu Hc Hp.
    rewrite (run_bind_Some _ _ _ _ _ _ (format_setup_cb_run _ _ _ _ _ _ Hc)).
    eexists _, _. split; [reflexivity|].
    by destruct (format_setup_keeps_handles can_allocate c width height) as [-> _].
  - (* lock *)
    apply Hcallback. intros p c Hu Hc Hp. unfold lock_cb.
    rewrite run_bind_assoc, (run_load_ctx_bind _ _ _ _ Hc).
    exists [], c. split; [|done]. rewrite run_ret_bind.
    by rewrite (insert_id _ _ _ Hc), set_contexts_id.
  - (* unlock *)
    apply Hcallback. intros p c Hu Hc Hp. exists [], c. split; [|done].
    by rewrite (insert_id _ _ _ Hc), set_contexts_id.
  - (* display *)
    apply Hcallback. intros p c Hu Hc Hp.
    destruct (display_cb_defined vm p m c Hc Hp) as [t ->].
    exists t, c. split; [|done]. by rewrite (insert_id _ _ _ Hc), set_contexts_id.
Qed.

(** X23: a session never leaves the defined behaviour. From a well-formed
    registry, every sequence of starts (succeeding or failing), releases
    and engine callbacks on registered streams returns, as long as LibVLC
    hands out a player at each start; afterwards the registry is still
    live and well formed with the same instance, and the other registries
    are untouched. *)
Theorem run_ops_safe h ops m g :
  globals m !! h = Some g → h ≠ 0 → vlc g ≠ 0 → registry_ok m g →
  Forall op_has_player ops →
  ∃ m' t g',
    run_ops h ops m = Some (tt, m', t) ∧
    globals m' !! h = Some g' ∧ vlc g' = vlc g ∧ registry_ok m' g' ∧
    (∀ h', h' ≠ h → globals m' !! h' = globals m !! h').
Proof.
  intros Hg Hh Hv Hok Hops. revert m g Hg Hv Hok.
  induction Hops as [|op ops Hop Hops IH]; intros m g Hg Hv Hok.
  - exists m, [], g. split; [done|]. split; [done|]. split; [done|].
    split; [done|]. done.
  - destruct (run_op_step h op m g Hg Hh Hv Hok Hop)
      as (m1 & t1 & g1 & Hrun1 & Hg1 & Hv1 & Hok1 & Hoth1 & _).
    assert (vlc g1 ≠ 0) as Hv1' by congruence.
    destruct (IH m1 g1 Hg1 Hv1' Hok1)
      as (m' & t & g' & Hrun & Hg' & Hv' & Hok' & Hoth).
    exists m', (t1 ++ t), g'. split.
    { unfold run_ops in *. cbn [for_each].
      by rewrite (run_bind_Some _ _ _ _ _ _ Hrun1), Hrun. }
    split; [done|]. split; [congruence|]. split; [done|].
    intros h' Hne. by rewrite Hoth, Hoth1.
Qed.

Lemma run_ops_safe_witness :
  ∃ m' t g',
    run_ops 50
      [OpStart demo_vm demo_engine "rtsp://camera/2" 77 0 0 None;
       OpNegotiate (λ _, true) "rtsp://camera/2" 4 2;
       OpLock "rtsp://camera/2"; OpUnlock "rtsp://camera/2";
       OpDisplay demo_vm "rtsp://camera/2";
       OpStart demo_vm no_play_engine demo_url 77 320 240 None;
       OpRelease demo_url;
       OpDisplay demo_vm demo_url]
      demo_memory = Some (tt, m', t) ∧
    globals m' !! 50 = Some g' ∧ registry_ok m' g'.
Proof.
  assert (50 ≠ 0) as Hh by lia.
  assert (vlc demo_global ≠ 0) as Hv by (simpl; lia).
  assert (Forall op_has_player
            [OpStart demo_vm demo_engine "rtsp://camera/2" 77 0 0 None;
             OpNegotiate (λ _, true) "rtsp://camera/2" 4 2;
             OpLock "rtsp://camera/2"; OpUnlock "rtsp://camera/2";
             OpDisplay demo_vm "rtsp://camera/2";
             OpStart demo_vm no_play_engine demo_url 77 320 240 None;
             OpRelease demo_url;
             OpDisplay demo_vm demo_url]) as Hops
    by (repeat constructor; simpl; lia).
  destruct (run_ops_safe 50 _ demo_memory demo_global
              demo_global_live Hh Hv demo_registry_ok Hops)
    as (m' & t & g' & Hrun & Hg' & _ & Hok' & _).
  exists m', t, g'. split; [exact Hrun|]. split; [exact Hg' | exact Hok'].
Defined.




(** X25: [nativeStart] does not test what
    [libvlc_media_player_new_from_media] returns. When the media was
    created but no player could be, the null player is stored in the
    context and handed straight to [libvlc_video_set_callbacks],
    [libvlc_video_set_format_callbacks] and [libvlc_media_player_play];
    the media is still released once. *)
Theorem nativeStart_unchecked_player vm engine h url hub width height args m g :
  globals m !! h = Some g → h ≠ 0 → vlc g ≠ 0 → players g !! url = None →
  r_media_new_location engine ≠ 0 → r_media_player_new_from_media engine = 0 →
  ∃ b m' t p,
    nativeStart vm engine h url hub width height args m = Some (b, m', t) ∧
    In (New_PlayerContext p) t ∧
    In (libvlc_video_set_callbacks 0 p) t ∧
    In (libvlc_video_set_format_callbacks 0) t ∧
    In (libvlc_media_player_play 0 (r_media_player_play engine)) t ∧
    In (libvlc_media_release (r_media_new_location engine)) t.
Proof.
  intros Hg Hh Hv Hu Em Enull.
  rewrite (nativeStart_fresh _ _ _ _ _ _ _ _ _ _ Hg Hh Hv Hu). cbv zeta.
  rewrite (null_false _ Em).
  assert (∀ p e, In e [libvlc_media_player_new_from_media (r_media_new_location engine) 0;
                       libvlc_media_release (r_media_new_location engine);
                       libvlc_video_set_callbacks 0 p;
                       libvlc_video_set_format_callbacks 0;
                       libvlc_media_player_play 0 (r_media_player_play engine)] →
                 In e (play_events engine args p)) as Hplay.
  { intros p e He. unfold play_events. rewrite Enull. apply in_app_iff. by right. }
  destruct (negb (r_media_player_play engine =? 0));
    eexists _, _, _, _; (split; [reflexivity|]);
    (split; [apply in_app_iff; left; by left|]).
  - repeat split; apply in_app_iff; right; apply in_app_iff; left;
      apply Hplay; simpl; tauto.
  - repeat split; apply in_app_iff; right; apply Hplay; simpl; tauto.
Qed.

Lemma nativeStart_unchecked_player_witness :
  ∃ b m' t p,
    nativeStart demo_vm (mkLibVLC 100 200 0 (-1)) 50 demo_url 77 0 0 None empty_memory =
      Some (b, m', t) ∧
    In (libvlc_video_set_callbacks 0 p) t ∧
    In (libvlc_media_player_play 0 (-1)) t.
Proof.
  assert (globals empty_memory !! 50 = Some (mkGlobalContext 100 ∅)) as Hg by reflexivity.
  assert (50 ≠ 0) as Hh by lia.
  assert (vlc (mkGlobalContext 100 ∅) ≠ 0) as Hv by (simpl; lia).
  assert (players (mkGlobalContext 100 ∅) !! demo_url = None) as Hu by reflexivity.
  assert (r_media_new_location (mkLibVLC 100 200 0 (-1)) ≠ 0) as Em by (simpl; lia).
  destruct (nativeStart_unchecked_player demo_vm (mkLibVLC 100 200 0 (-1)) 50 demo_url
              77 0 0 None empty_memory _ Hg Hh Hv Hu Em eq_refl)
    as (b & m' & t & p & Hrun & _ & Hcb & _ & Hplay & _).
  exists b, m', t, p. split; [exact Hrun|]. split; [exact Hcb | exact Hplay].
Defined.
